(** * Dual-reference Z-score calculator

    A shallow embedding of [calculate_dual_zscore] and of the page logic of
    [main] from [app.py], with the pandas operations they are written
    with, followed by the properties of the calculator.

    Modelling conventions.
    - A DataFrame is a column index (the ordered column labels) and the
      sequence of its rows; a row maps a column label to a cell.  A cell
      that is absent from a row reads as NaN, pandas' missing value.  The
      row index is not represented: nothing in the calculator reads it and
      the final [pd.concat(..., ignore_index=True)] discards it.
    - Numbers are the floats of an [Arithmetic].  The program computes in
      [binary64], IEEE 754 double precision with its rounding, infinities
      and NaN; [exact] is the arithmetic of the real numbers, in which the
      algebraic laws of the Z-score hold.  The calculator is written once,
      over any arithmetic, and a property proved of it without choosing
      one holds in binary64.
    - Exceptions are values: every operation that can raise returns a
      [result]. *)

From Stdlib Require Import PrimFloat.
From Stdlib Require Uint63.
From Stdlib Require Import Reals Lra.
From stdpp Require Import base option list strings gmap sorting.

#[local] Set Warnings "-clear-no-such-hyp,-inexact-float".

(** ** Exceptions *)

(** The three [KeyError]s differ in their argument: the label that was
    looked up ([df[c]], [stats.loc[c, ...]]); the whole key of a list
    lookup none of whose labels is a column (``None of [...] are in the
    [columns]''); the distinct missing labels of a list lookup some of
    whose labels are columns (``[...] not in index''). *)
Inductive exn :=
  | KeyError (label : string)
  | KeyErrorNone (key : list string)
  | KeyErrorMissing (labels : list string)
  | TypeError
  | ValueError.

Inductive result (A : Type) :=
  | Ok (a : A)
  | Raise (e : exn).
Arguments Ok {A} a.
Arguments Raise {A} e.

#[global] Instance result_ret : MRet result := @Ok.
#[global] Instance result_bind : MBind result := λ A B f m,
  match m with
  | Ok a => f a
  | Raise e => Raise e
  end.
#[global] Instance result_fmap : FMap result := λ A B f m,
  match m with
  | Ok a => Ok (f a)
  | Raise e => Raise e
  end.

(** A Python [for] loop whose body updates the loop state and may raise. *)
Fixpoint for_loop {S A : Type} (body : S → A → result S) (s : S) (l : list A)
  : result S :=
  match l with
  | [] => Ok s
  | x :: l' => s' ← body s x; for_loop body s' l'
  end.

(** ** Numbers *)

(** The floating-point operations the calculator and pandas' reductions
    perform: the test [np.isnan], the comparisons [==] and [<=], the
    operations [-], [*], [/] and [np.sqrt] on two floats, the sum of an
    array ([ndarray.sum], in whatever order numpy adds), and the
    conversion of a count to a float.  [zero] is the number 0.  Of the
    operations only this is assumed: NaN is a NaN, and so is its square
    root. *)
Class Arithmetic := {
  float : Type;
  NaN : float;
  zero : float;
  isnan : float → bool;
  feq : float → float → bool;
  fle : float → float → bool;
  fsub : float → float → float;
  fmul : float → float → float;
  fdiv : float → float → float;
  fsqrt : float → float;
  fsum : list float → float;
  of_count : nat → float;
  isnan_NaN : isnan NaN = true;
  fsqrt_NaN : fsqrt NaN = NaN
}.

(** The arithmetic of the program: IEEE 754 binary64, round to nearest
    even.  An array of fewer than eight elements is summed from left to
    right, starting from zero; numpy adds longer arrays in blocks, which
    no sample record set below is long enough to show. *)
#[global] Instance binary64 : Arithmetic | 10 := {
  float := PrimFloat.float;
  NaN := PrimFloat.nan;
  zero := PrimFloat.zero;
  isnan := PrimFloat.is_nan;
  feq := PrimFloat.eqb;
  fle := PrimFloat.leb;
  fsub := PrimFloat.sub;
  fmul := PrimFloat.mul;
  fdiv := PrimFloat.div;
  fsqrt := PrimFloat.sqrt;
  fsum := foldl PrimFloat.add PrimFloat.zero;
  of_count := λ n, PrimFloat.of_uint63 (Uint63.of_Z (Z.of_nat n));
  isnan_NaN := eq_refl;
  fsqrt_NaN := eq_refl
}.

(** Exact arithmetic: a real number or NaN.  Every operation on a NaN
    gives NaN; nothing is rounded and nothing overflows. *)
Inductive real :=
  | Fin (r : R)
  | NoNumber.

Definition lift2 (f : R → R → R) (x y : real) : real :=
  match x, y with
  | Fin a, Fin b => Fin (f a b)
  | _, _ => NoNumber
  end.

Definition exact : Arithmetic := {|
  float := real;
  NaN := NoNumber;
  zero := Fin 0;
  isnan := λ x, match x with NoNumber => true | Fin _ => false end;
  feq := λ x y, match x, y with
                | Fin a, Fin b => if Req_dec_T a b then true else false
                | _, _ => false
                end;
  fle := λ x y, match x, y with
                | Fin a, Fin b => if Rle_dec a b then true else false
                | _, _ => false
                end;
  fsub := lift2 Rminus;
  fmul := lift2 Rmult;
  fdiv := lift2 Rdiv;
  fsqrt := λ x, match x with Fin a => Fin (sqrt a) | NoNumber => NoNumber end;
  fsum := foldr (lift2 Rplus) (Fin 0);
  of_count := λ n, Fin (INR n);
  isnan_NaN := eq_refl;
  fsqrt_NaN := eq_refl
|}.



(** ** The calculator and the page, over any arithmetic *)

Section calculator.
Context {arith : Arithmetic}.

(** *** Cells, rows and frames *)

Inductive cell :=
  | CStr (s : string)
  | CNum (x : float).

Record DataFrame := mkDataFrame {
  columns : list string;
  rows : list (gmap string cell)
}.

(** [pd.DataFrame()] *)
Definition empty_frame : DataFrame := mkDataFrame [] [].

(** The cell of a row under a column label. *)
Definition at_ (r : gmap string cell) (c : string) : cell :=
  default (CNum NaN) (r !! c).

(** [df.empty]: some axis has length zero. *)
Definition empty (df : DataFrame) : bool :=
  match rows df, columns df with
  | [], _ | _, [] => true
  | _, _ => false
  end.

(** Element-wise tests of a string column: [s.isin(values)] and [s == x].
    A number is neither in a list of strings nor equal to a string. *)
Definition cell_isin (values : list string) (v : cell) : bool :=
  match v with
  | CStr s => bool_decide (s ∈ values)
  | CNum _ => false
  end.

Definition cell_eq (x : string) (v : cell) : bool :=
  match v with
  | CStr s => bool_decide (s = x)
  | CNum _ => false
  end.

(** [df[test(df[c])]]: boolean indexing by a test of column [c]. *)
Definition select (df : DataFrame) (c : string) (test : cell → bool)
  : result DataFrame :=
  if bool_decide (c ∈ columns df)
  then Ok (mkDataFrame (columns df) (filter (λ r, test (at_ r c)) (rows df)))
  else Raise (KeyError c).

(** [df[c]]: the cells of one column. *)
Definition getitem (df : DataFrame) (c : string) : result (list cell) :=
  if bool_decide (c ∈ columns df)
  then Ok ((λ r, at_ r c) <$> rows df)
  else Raise (KeyError c).

(** [Index.unique]: the first occurrence of every label, in order. *)
Fixpoint distinct (l : list string) : list string :=
  match l with
  | [] => []
  | x :: l' => x :: filter (λ y, y ≠ x) (distinct l')
  end.

(** [df[cols]]: the sub-frame of the listed columns.  When labels of the
    list are not columns the lookup raises one KeyError: for the whole
    list when none of its labels is a column, for the distinct missing
    labels otherwise. *)
Definition getitems (df : DataFrame) (cols : list string) : result DataFrame :=
  match filter (λ c, c ∉ columns df) cols with
  | [] => Ok (mkDataFrame cols (rows df))
  | missing =>
      if bool_decide (length missing = length cols)
      then Raise (KeyErrorNone cols)
      else Raise (KeyErrorMissing (distinct missing))
  end.

(** Arithmetic on a cell that holds a string raises. *)
Definition to_float (v : cell) : result float :=
  match v with
  | CNum x => Ok x
  | CStr _ => Raise TypeError
  end.

(** *** Reductions (pandas [nanops], [skipna=True], [ddof=1]) *)

(** The number of values that are not NaN, and the values with every NaN
    replaced by zero ([np.putmask(values, mask, 0)]). *)
Definition count (xs : list float) : nat :=
  length (filter (λ x, isnan x = false) xs).

Definition fill (xs : list float) : list float :=
  (λ x, if isnan x then zero else x) <$> xs.

(** [nanmean]: the sum of the filled values over the count. *)
Definition nanmean (xs : list float) : float :=
  match count xs with
  | 0 => NaN
  | n => fdiv (fsum (fill xs)) (of_count n)
  end.

(** [nanvar], in two passes: the mean, then the sum of the squared
    deviations from it over [count - ddof]; NaN when the count does not
    exceed [ddof]. *)
Definition nanvar (xs : list float) : float :=
  let n := count xs in
  if n <=? 1 then NaN
  else
    let avg := fdiv (fsum (fill xs)) (of_count n) in
    let sqr := (λ x, if isnan x then zero
                     else fmul (fsub avg x) (fsub avg x)) <$> xs in
    fdiv (fsum sqr) (of_count (n - 1)).

(** [nanstd]: [np.sqrt] of the variance. *)
Definition nanstd (xs : list float) : float := fsqrt (nanvar xs).

(** [df.agg(['mean', 'std']).T] with its columns named [mean] and [std]:
    one entry per column of [df], in column order.  Aggregating a frame
    without columns raises (there is nothing to concatenate). *)
Definition agg_mean_std (df : DataFrame) : result (list (string * (float * float))) :=
  match columns df with
  | [] => Raise ValueError
  | cols =>
      mapM (λ c, xs ← mapM to_float ((λ r, at_ r c) <$> rows df);
                 mret (c, (nanmean xs, nanstd xs))) cols
  end.

(** [stats.loc[col, 'mean']] and [stats.loc[col, 'std']] read as scalars.
    A label that occurs more than once selects a Series, whose truth value
    in the [if] that follows is ambiguous. *)
Definition loc (stats : list (string * (float * float))) (col : string)
  : result (float * float) :=
  match filter (λ e, e.1 = col) stats with
  | [] => Raise (KeyError col)
  | [e] => Ok e.2
  | _ => Raise ValueError
  end.

(** *** Column assignment, concatenation, dropping *)

Definition add_column (cols : list string) (c : string) : list string :=
  if bool_decide (c ∈ cols) then cols else cols ++ [c].

(** [df[c] = v] for a scalar [v]. *)
Definition setitem_scalar (df : DataFrame) (c : string) (v : cell) : DataFrame :=
  mkDataFrame (add_column (columns df) c) (insert c v <$> rows df).

(** [df[c] = s] for a Series [s] over the rows of [df]. *)
Definition setitem (df : DataFrame) (c : string) (s : list cell) : DataFrame :=
  mkDataFrame (add_column (columns df) c)
              (zip_with (λ r v, <[c:=v]> r) (rows df) s).

(** [pd.concat(frames, ignore_index=True)]: the union of the column
    indexes in order of first appearance, and the rows one frame after the
    other.  A cell a frame does not have stays absent, that is NaN. *)
Definition concat_frames (frames : list DataFrame) : DataFrame :=
  mkDataFrame (foldl (λ cols df, foldl add_column cols (columns df)) [] frames)
              (mjoin (rows <$> frames)).

(** [df.drop(columns=cols, errors='ignore')] *)
Definition drop (df : DataFrame) (cols : list string) : DataFrame :=
  mkDataFrame (filter (λ c, c ∉ cols) (columns df))
              ((λ r, foldr delete r cols) <$> rows df).

(** *** The application *)

Definition COL_JUGADOR : string := "JUGADOR".
Definition COL_CATEGORIA : string := "CATEGORÍA".
Definition COL_RM_SENTADILLA : string := "RM SENTADILLA".
Definition COL_VO2_MAX : string := "VO2 MAX".
Definition COLS_ZSCORE : list string := [COL_RM_SENTADILLA; COL_VO2_MAX].
Definition COL_REFERENCIA : string := "Categoría de Referencia".

(** [f'Z-Score {col}'] *)
Definition zscore_name (col : string) : string := "Z-Score " +:+ col.

(** [(value - mean) / std] on one cell of the target column. *)
Definition standardize (mean std : float) (v : cell) : result cell :=
  x ← to_float v; mret (CNum (fdiv (fsub x mean) std)).

(** The body of the loop over [value_cols]. *)
Definition zscore_column (stats : list (string * (float * float)))
    (df_cat_zscore : DataFrame) (col : string) : result DataFrame :=
  '(mean, std) ← loc stats col;
  let new_col_name := zscore_name col in
  if feq std zero || isnan std
  then mret (setitem_scalar df_cat_zscore new_col_name (CNum zero))
  else
    s ← getitem df_cat_zscore col;
    z ← mapM (standardize mean std) s;
    mret (setitem df_cat_zscore new_col_name z).

(** The body of the loop over [reference_categories]; the loop state is the
    list [all_comparisons]. *)
Definition compare_with (df df_targets : DataFrame) (value_cols : list string)
    (all_comparisons : list DataFrame) (ref_cat : string)
  : result (list DataFrame) :=
  df_reference ← select df COL_CATEGORIA (cell_eq ref_cat);
  if empty df_reference then mret all_comparisons
  else
    sub ← getitems df_reference value_cols;
    stats ← agg_mean_std sub;
    df_cat_zscore ← for_loop (zscore_column stats) df_targets value_cols;
    let df_cat_zscore := setitem_scalar df_cat_zscore COL_REFERENCIA (CStr ref_cat) in
    mret (all_comparisons ++ [df_cat_zscore]).

Definition calculate_dual_zscore (df : DataFrame)
    (target_players reference_categories value_cols : list string)
  : result DataFrame :=
  df_targets ← select df COL_JUGADOR (cell_isin target_players);
  all_comparisons ←
    for_loop (compare_with df df_targets value_cols) [] reference_categories;
  match all_comparisons with
  | [] => mret empty_frame
  | _ =>
      let df_final := concat_frames all_comparisons in
      let cols_to_drop := filter (λ col, col ∈ columns df_final) value_cols in
      mret (drop df_final cols_to_drop)
  end.

(** *** The page *)

Definition JUGADORES_COMPARAR_DEFAULT : list string := ["CALAGUA"; "OJEDA"; "ZEGARRA"].
Definition CATEGORIAS_REFERENCIA : list string := ["1 EQUIPO"; "SUB 17"].
Definition COL_METRICA : string := "Métrica".
Definition COL_Z_SCORE : string := "Z_Score".
Definition COL_REFERENCIA_CHART : string := "Referencia".

(** [s.unique()]: the first occurrence of every value, in order; NaN counts
    as one value. *)
Definition same_cell (v w : cell) : bool :=
  match v, w with
  | CStr a, CStr b => bool_decide (a = b)
  | CNum x, CNum y => feq x y || (isnan x && isnan y)
  | _, _ => false
  end.

Fixpoint unique (s : list cell) : list cell :=
  match s with
  | [] => []
  | v :: s' => v :: filter (λ w, ¬ same_cell v w) (unique s')
  end.

(** [sorted(l)] on the values of a column.  Strings are ordered by code
    point, numbers by value, and comparing a string with a number raises.
    (With a NaN among the numbers the order Python leaves depends on its
    sorting algorithm; the page tests the sorted list for membership
    only.) *)
Definition cell_le (v w : cell) : Prop :=
  match v, w with
  | CStr a, CStr b => String.leb a b
  | CNum x, CNum y => fle x y
  | _, _ => False
  end.

#[global] Instance cell_le_dec v w : Decision (cell_le v w).
Proof. destruct v, w; simpl; apply _. Defined.

Definition is_text (v : cell) : bool :=
  match v with
  | CStr _ => true
  | CNum _ => false
  end.

Definition sorted (l : list cell) : result (list cell) :=
  if existsb is_text l && existsb (λ v, negb (is_text v)) l
  then Raise TypeError
  else Ok (merge_sort cell_le l).

(** [sorted(data[COL_JUGADOR].unique().tolist())] *)
Definition all_players (data : DataFrame) : result (list cell) :=
  s ← getitem data COL_JUGADOR; sorted (unique s).

(** [[p for p in JUGADORES_COMPARAR_DEFAULT if p in all_players]] *)
Definition target_players_filtered (all_players : list cell) : list string :=
  filter (λ p, existsb (cell_eq p) all_players) JUGADORES_COMPARAR_DEFAULT.

(** [df.melt(id_vars, value_vars, var_name, value_name)]: one row per value
    column and row of the frame, value column by value column; a value
    name that is already a column raises, and so do identifier or value
    columns that are none. *)
Definition keep (id_vars : list string) (r : gmap string cell) : gmap string cell :=
  foldr (λ c m, <[c := at_ r c]> m) ∅ id_vars.

Definition melt (frame : DataFrame) (id_vars value_vars : list string)
    (var_name value_name : string) : result DataFrame :=
  if bool_decide (value_name ∈ columns frame) then Raise ValueError
  else
    match filter (λ c, c ∉ columns frame) (id_vars ++ value_vars) with
    | [] =>
        Ok (mkDataFrame (id_vars ++ [var_name; value_name])
              (mjoin ((λ v, (λ r, <[value_name := at_ r v]>
                                    (<[var_name := CStr v]> (keep id_vars r)))
                              <$> rows frame)
                        <$> value_vars)))
    | missing => Raise (KeyErrorMissing missing)
    end.

(** [s.replace(old, new)]: every occurrence of [old], left to right and
    without overlap. *)
Fixpoint interleave (new s : string) : string :=
  match s with
  | EmptyString => EmptyString
  | String a s' => String a (new +:+ interleave new s')
  end.

Fixpoint replace_from (skip : nat) (old new s : string) : string :=
  match s with
  | EmptyString => EmptyString
  | String a s' =>
      match skip with
      | S k => replace_from k old new s'
      | 0 =>
          if String.prefix old s
          then new +:+ replace_from (String.length old - 1) old new s'
          else String a (replace_from 0 old new s')
      end
  end.

Definition str_replace (old new s : string) : string :=
  match old with
  | EmptyString => new +:+ interleave new s
  | _ => replace_from 0 old new s
  end.

(** [df[c] = df[c].str.replace(old, new)]; an element that is no string
    becomes NaN. *)
Definition replace_in_column (df : DataFrame) (c old new : string) : result DataFrame :=
  s ← getitem df c;
  mret (setitem df c ((λ v, match v with
                            | CStr x => CStr (str_replace old new x)
                            | CNum _ => CNum NaN
                            end) <$> s)).

(** [df.rename(columns={old: new})], for a [new] that is not yet a column. *)
Definition rename (df : DataFrame) (old new : string) : DataFrame :=
  if bool_decide (old ∈ columns df)
  then mkDataFrame ((λ c, if decide (c = old) then new else c) <$> columns df)
         ((λ r, match r !! old with
                | Some v => <[new := v]> (delete old r)
                | None => delete new r
                end) <$> rows df)
  else df.

(** A chart is drawn from its title and its data; the encodings, the zero
    line and the text labels are the same for every chart. *)
Record chart := mkChart {
  chart_title : string;
  chart_data : DataFrame
}.

Definition create_comparison_chart (data : DataFrame) (metric_name : string)
  : result chart :=
  if bool_decide (metric_name ≠ "")
  then
    chart_data ← select data COL_METRICA (cell_eq metric_name);
    mret (mkChart ("Z-Score Comparativo: " +:+ metric_name) chart_data)
  else mret (mkChart "Z-Score Agrupado por Jugador y Métrica" data).

(** What the page shows below its header. *)
Inductive page :=
  | Blank
  | Info
  | Warning
  | Visualization (charts : list chart).

Definition is_nil {A} (l : list A) : bool :=
  match l with
  | [] => true
  | _ => false
  end.

(** [main], from the loaded data and the three selections of the sidebar. *)
Definition main (data : DataFrame)
    (selected_players selected_references selected_metrics : list string)
  : result page :=
  if empty data then mret Blank
  else
    all_players ← all_players data;
    let all_metrics := [COL_RM_SENTADILLA; COL_VO2_MAX] in
    if is_nil selected_players || is_nil selected_references
       || is_nil selected_metrics
    then mret Info
    else
      df_dual_zscore ← calculate_dual_zscore data selected_players
                         selected_references all_metrics;
      if empty df_dual_zscore then mret Warning
      else
        let zscore_cols_to_melt := zscore_name <$> selected_metrics in
        df_chart ← melt df_dual_zscore [COL_JUGADOR; COL_REFERENCIA]
                     zscore_cols_to_melt COL_METRICA COL_Z_SCORE;
        df_chart ← replace_in_column df_chart COL_METRICA "Z-Score " "";
        let df_chart := rename df_chart COL_REFERENCIA COL_REFERENCIA_CHART in
        charts ←
          match selected_metrics with
          | [metric] => c ← create_comparison_chart df_chart metric; mret [c]
          | _ =>
              for_loop (λ charts metric,
                          c ← create_comparison_chart df_chart metric;
                          mret (charts ++ [c])) [] selected_metrics
          end;
        mret (Visualization charts).

(** *** Vocabulary of the properties *)

(** The rows of the target entities: every record whose entity identifier
    is one of [target_players], in record order. *)
Definition target_rows (df : DataFrame) (target_players : list string)
  : list (gmap string cell) :=
  filter (λ r, cell_isin target_players (at_ r COL_JUGADOR)) (rows df).

(** The reference population of a group: every record whose group label
    equals [g], in record order. *)
Definition reference_rows (df : DataFrame) (g : string)
  : list (gmap string cell) :=
  filter (λ r, cell_eq g (at_ r COL_CATEGORIA)) (rows df).

Definition has_reference (df : DataFrame) (g : string) : Prop :=
  reference_rows df g ≠ [].

#[global] Instance has_reference_dec df g : Decision (has_reference df g).
Proof. unfold has_reference. apply _. Defined.

(** The reference groups that are not skipped, in the order given. *)
Definition processed (df : DataFrame) (reference_categories : list string)
  : list string :=
  filter (has_reference df) reference_categories.

(** The values of a metric over a list of records. *)
Definition metric_values (rs : list (gmap string cell)) (col : string) : list cell :=
  (λ r, at_ r col) <$> rs.

(** An output row is tagged with reference group [g]. *)
Definition tagged (g : string) (o : gmap string cell) : bool :=
  match o !! COL_REFERENCIA with
  | Some v => cell_eq g v
  | None => false
  end.

(** A record belongs to entity [e]. *)
Definition of_entity (e : string) (r : gmap string cell) : bool :=
  cell_eq e (at_ r COL_JUGADOR).

(** The test the calculator applies to a reference standard deviation. *)
Definition degenerate (std : float) : bool := feq std zero || isnan std.

(** The score the loop body of [zscore_column] gives a number [x]. *)
Definition zscore (mean std x : float) : float :=
  if degenerate std then zero else fdiv (fsub x mean) std.

(** The frames [df_reference] and [df_targets] of the calculator. *)
Definition reference_frame (df : DataFrame) (g : string) : DataFrame :=
  mkDataFrame (columns df) (reference_rows df g).

Definition target_frame (df : DataFrame) (target_players : list string) : DataFrame :=
  mkDataFrame (columns df) (target_rows df target_players).

(** The statistics table of a reference group, as the loop body builds it. *)
Definition reference_stats (df : DataFrame) (g : string) (value_cols : list string)
  : result (list (string * (float * float))) :=
  sub ← getitems (reference_frame df g) value_cols;
  agg_mean_std sub.

(** The pass over one populated reference group: the part of the loop
    body of [compare_with] after the test for an empty population. *)
Definition comparison (df_reference df_targets : DataFrame)
    (value_cols : list string) (ref_cat : string) : result DataFrame :=
  sub ← getitems df_reference value_cols;
  stats ← agg_mean_std sub;
  df_cat_zscore ← for_loop (zscore_column stats) df_targets value_cols;
  mret (setitem_scalar df_cat_zscore COL_REFERENCIA (CStr ref_cat)).

(** The part of [calculate_dual_zscore] after the loop. *)
Definition assemble (value_cols : list string) (all_comparisons : list DataFrame)
  : DataFrame :=
  match all_comparisons with
  | [] => empty_frame
  | _ =>
      let df_final := concat_frames all_comparisons in
      drop df_final (filter (λ col, col ∈ columns df_final) value_cols)
  end.

Definition is_Ok {A} (m : result A) : Prop := ∃ a, m = Ok a.

(** The loop body of [zscore_column] seen from one row. *)
Definition zscore_row (stats : list (string * (float * float)))
    (r : gmap string cell) (col : string) : result (gmap string cell) :=
  '(mean, std) ← loc stats col;
  if degenerate std then mret (<[zscore_name col := CNum zero]> r)
  else v ← standardize mean std (at_ r col); mret (<[zscore_name col := v]> r).

(** How an output row [o] of the pass for group [g] arises from the target
    row [r]. *)
Definition row_result (df : DataFrame) (value_cols : list string) (g : string)
    (r o : gmap string cell) : Prop :=
  ∃ stats r1,
    reference_stats df g value_cols = Ok stats ∧
    for_loop (zscore_row stats) r value_cols = Ok r1 ∧
    o = foldr delete (<[COL_REFERENCIA := CStr g]> r1) value_cols.

(** A column the calculator neither drops nor writes. *)
Definition untouched (value_cols : list string) (c : string) : Prop :=
  (c ∉ value_cols) ∧ c ≠ COL_REFERENCIA ∧ ∀ m, m ∈ value_cols → c ≠ zscore_name m.

(** No requested metric is named like the score field of a requested
    metric. *)
Definition distinct_names (value_cols : list string) : Prop :=
  ∀ m m', m ∈ value_cols → m' ∈ value_cols → m' ≠ zscore_name m.

(** The input contract of the calculator: the identifier and group columns
    exist, the requested metrics are distinct columns, there is at least
    one, and every record holds a number under each of them. *)
Definition numeric_row (value_cols : list string) (r : gmap string cell) : Prop :=
  ∀ c, c ∈ value_cols → ∃ x, at_ r c = CNum x.

Record contract (df : DataFrame) (value_cols : list string) : Prop := {
  contract_jugador : COL_JUGADOR ∈ columns df;
  contract_categoria : COL_CATEGORIA ∈ columns df;
  contract_nonempty : value_cols ≠ [];
  contract_nodup : NoDup value_cols;
  contract_columns : ∀ c, c ∈ value_cols → c ∈ columns df;
  contract_numeric : Forall (numeric_row value_cols) (rows df)
}.

(** The arithmetic mean and the sample standard deviation (denominator
    N - 1) of a list of numbers, as the specification words them. *)
Definition arithmetic_mean (l : list float) : float :=
  fdiv (fsum l) (of_count (length l)).

Definition sample_std (l : list float) : float :=
  fsqrt (fdiv (fsum ((λ x, fmul (fsub (arithmetic_mean l) x)
                                (fsub (arithmetic_mean l) x)) <$> l))
              (of_count (length l - 1))).

(** The record set without the records of group [g]. *)
Definition remove_group (df : DataFrame) (g : string) : DataFrame :=
  mkDataFrame (columns df)
              (filter (λ r, ¬ cell_eq g (at_ r COL_CATEGORIA)) (rows df)).





(** The number a cell holds; text holds none. *)
Definition number (v : cell) : float :=
  match v with
  | CNum x => x
  | CStr _ => NaN
  end.

(** The numbers of a metric over the reference population of a group. *)
Definition reference_values (df : DataFrame) (g col : string) : list float :=
  number <$> metric_values (reference_rows df g) col.

(** The score of a target row for a metric against a group, from the raw
    value of the row and the statistics of the group's population. *)
Definition expected_score (df : DataFrame) (g col : string)
    (r : gmap string cell) : cell :=
  CNum (zscore (nanmean (reference_values df g col))
               (nanstd (reference_values df g col))
               (number (at_ r col))).

(** The score field of a metric down the rows of the result: group by
    processed group, target row by target row. *)
Definition score_column (df : DataFrame) (target_players reference_categories : list string)
    (col : string) : list (option cell) :=
  mjoin ((λ g, (λ r, Some (expected_score df g col r))
                 <$> target_rows df target_players)
           <$> processed df reference_categories).

(** The two stages of the page after the calculator: the chart data, and
    the charts drawn from it. *)
Definition prepare_chart_data (df_dual_zscore : DataFrame)
    (selected_metrics : list string) : result DataFrame :=
  df_chart ← melt df_dual_zscore [COL_JUGADOR; COL_REFERENCIA]
               (zscore_name <$> selected_metrics) COL_METRICA COL_Z_SCORE;
  df_chart ← replace_in_column df_chart COL_METRICA "Z-Score " "";
  mret (rename df_chart COL_REFERENCIA COL_REFERENCIA_CHART).

Definition draw_charts (df_chart : DataFrame) (selected_metrics : list string)
  : result (list chart) :=
  match selected_metrics with
  | [metric] => c ← create_comparison_chart df_chart metric; mret [c]
  | _ =>
      for_loop (λ charts metric,
                  c ← create_comparison_chart df_chart metric;
                  mret (charts ++ [c])) [] selected_metrics
  end.

(** The label the chart data carries for a metric. *)
Definition metric_label (m : string) : string :=
  str_replace "Z-Score " "" (zscore_name m).

(** The row of the chart data for metric [m] made from the row [o] of the
    calculator's result. *)
Definition chart_row (m : string) (o : gmap string cell) : gmap string cell :=
  <[COL_REFERENCIA_CHART := at_ o COL_REFERENCIA]>
    (delete COL_REFERENCIA
       (<[COL_METRICA := CStr (metric_label m)]>
          (<[COL_Z_SCORE := at_ o (zscore_name m)]>
             (<[COL_METRICA := CStr (zscore_name m)]>
                (keep [COL_JUGADOR; COL_REFERENCIA] o))))).

Definition chart_frame (out : DataFrame) (selected_metrics : list string) : DataFrame :=
  mkDataFrame [COL_JUGADOR; COL_REFERENCIA_CHART; COL_METRICA; COL_Z_SCORE]
    (mjoin ((λ m, chart_row m <$> rows out) <$> selected_metrics)).

(** The pairs of a processed group and a target row, in the order of the
    result. *)
Definition scored_pairs (data : DataFrame) (target_players reference_categories : list string)
  : list (string * gmap string cell) :=
  mjoin ((λ g, (λ r, (g, r)) <$> target_rows data target_players)
           <$> processed data reference_categories).

(** [old] occurs in [s]. *)
Fixpoint contains (old s : string) : bool :=
  String.prefix old s ||
  match s with
  | EmptyString => false
  | String _ s' => contains old s'
  end.

End calculator.

(** ** Sample record sets *)

(** The samples hold binary64 numbers, as the record sets of the program
    do. *)
Definition record (jugador categoria : string)
    (metrics : list (string * PrimFloat.float)) : gmap string cell :=
  <[COL_JUGADOR := CStr jugador]>
    (<[COL_CATEGORIA := CStr categoria]>
       (foldr (λ mx r, <[mx.1 := CNum mx.2]> r) ∅ metrics)).

(** A roster in the shape the application loads: the two key columns and
    the two configured metrics. *)
Definition roster : DataFrame :=
  mkDataFrame [COL_JUGADOR; COL_CATEGORIA; COL_RM_SENTADILLA; COL_VO2_MAX]
    [ record "CALAGUA" "SUB 17" [(COL_RM_SENTADILLA, 100); (COL_VO2_MAX, 50)];
      record "PEREZ" "1 EQUIPO" [(COL_RM_SENTADILLA, 120); (COL_VO2_MAX, 55)] ]%float.

(** The roster with a third group. *)
Definition roster_reserve : DataFrame :=
  mkDataFrame [COL_JUGADOR; COL_CATEGORIA; COL_RM_SENTADILLA; COL_VO2_MAX]
    [ record "CALAGUA" "SUB 17" [(COL_RM_SENTADILLA, 100); (COL_VO2_MAX, 50)];
      record "PEREZ" "1 EQUIPO" [(COL_RM_SENTADILLA, 120); (COL_VO2_MAX, 55)];
      record "DIAZ" "RESERVA" [(COL_RM_SENTADILLA, 110); (COL_VO2_MAX, 53)] ]%float.

(** A roster in which a target entity has two records. *)
Definition roster_repeated : DataFrame :=
  mkDataFrame [COL_JUGADOR; COL_CATEGORIA; COL_RM_SENTADILLA; COL_VO2_MAX]
    [ record "CALAGUA" "SUB 17" [(COL_RM_SENTADILLA, 100); (COL_VO2_MAX, 50)];
      record "PEREZ" "1 EQUIPO" [(COL_RM_SENTADILLA, 120); (COL_VO2_MAX, 55)];
      record "CALAGUA" "SUB 17" [(COL_RM_SENTADILLA, 105); (COL_VO2_MAX, 52)] ]%float.

(** A cohort measured on one metric: a reference group of three records
    and a target with raw value 65. *)
Definition cohort_of (a b c : PrimFloat.float) : DataFrame :=
  mkDataFrame [COL_JUGADOR; COL_CATEGORIA; COL_VO2_MAX]
    [ record "A" "REF" [(COL_VO2_MAX, a)];
      record "B" "REF" [(COL_VO2_MAX, b)];
      record "C" "REF" [(COL_VO2_MAX, c)];
      record "X" "TARGET" [(COL_VO2_MAX, 65%float)] ].

(** Reference mean 50 and sample standard deviation 10. *)
Definition cohort : DataFrame := cohort_of 40 50 60.



(** A record set that breaks the input contract: text under a metric. *)
Definition roster_text : DataFrame :=
  mkDataFrame [COL_JUGADOR; COL_CATEGORIA; COL_RM_SENTADILLA; COL_VO2_MAX]
    [ <[COL_VO2_MAX := CStr "n/d"]>
        (record "PEREZ" "1 EQUIPO" [(COL_RM_SENTADILLA, 120%float)]) ].


(** Tactics for the side conditions of the properties on sample record
    sets. *)
Ltac elem_cases H :=
  repeat (apply elem_of_cons in H as [->|H]); try (by apply elem_of_nil in H).

Ltac by_computation := apply (bool_decide_unpack _); vm_compute; exact I.

Ltac solve_names :=
  let m := fresh "m" in let m' := fresh "m" in
  let Hm := fresh "Hm" in let Hm' := fresh "Hm" in
  intros m m' Hm Hm'; elem_cases Hm; elem_cases Hm'; vm_compute; discriminate.

Ltac solve_contract :=
  let c := fresh "c" in let Hc := fresh "Hc" in
  constructor;
  [ by_computation | by_computation | discriminate | by_computation
  | intros c Hc; elem_cases Hc; by_computation
  | repeat constructor; intros c Hc; elem_cases Hc; eexists; vm_compute; reflexivity ].

(** ** Properties that hold in any arithmetic *)

Section properties.
Context {arith : Arithmetic}.

(** *** The result monad *)

Lemma bind_Ok {A B} (m : result A) (f : A → result B) b :
  m ≫= f = Ok b ↔ ∃ a, m = Ok a ∧ f a = Ok b.
Proof.
  destruct m as [a|e]; simpl; split.
  - intros H. by exists a.
  - by intros (a' & [= <-] & H).
  - by intros H.
  - by intros (a' & [=] & _).
Qed.

Lemma fmap_Ok {A B} (f : A → B) (m : result A) b :
  f <$> m = Ok b ↔ ∃ a, m = Ok a ∧ b = f a.
Proof.
  destruct m as [a|e]; simpl; split.
  - intros [= <-]. by exists a.
  - by intros (a' & [= <-] & ->).
  - by intros H.
  - by intros (a' & [=] & _).
Qed.

Lemma mapM_cons {A B} (f : A → result B) x l :
  mapM f (x :: l) = y ← f x; k ← mapM f l; mret (y :: k).
Proof. done. Qed.

Lemma mapM_Ok {A B} (f : A → result B) l k :
  mapM f l = Ok k ↔ Forall2 (λ x y, f x = Ok y) l k.
Proof.
  revert k. induction l as [|x l IH]; intros k.
  - split; [by intros [= <-]; constructor | by inversion 1].
  - rewrite mapM_cons. split.
    + intros (y & Hy & H)%bind_Ok. apply bind_Ok in H as (k' & Hk' & [= <-]).
      constructor; [done | by apply IH].
    + inversion 1 as [|? y ? k' Hy Hk']; simplify_eq.
      apply IH in Hk'. by rewrite Hy, Hk'.
Qed.

Lemma mapM_length {A B} (f : A → result B) l k :
  mapM f l = Ok k → length k = length l.
Proof. intros H%mapM_Ok. symmetry. by eapply Forall2_length. Qed.

Lemma for_loop_app {S A} (body : S → A → result S) s l1 l2 :
  for_loop body s (l1 ++ l2) = s' ← for_loop body s l1; for_loop body s' l2.
Proof.
  revert s. induction l1 as [|x l1 IH]; intros s; simpl; [done|].
  destruct (body s x); simpl; [apply IH | done].
Qed.

Lemma Forall2_compose {A B C} (P : A → B → Prop) (Q : B → C → Prop) l n :
  Forall2 (λ x z, ∃ y, P x y ∧ Q y z) l n ↔
  ∃ m, Forall2 P l m ∧ Forall2 Q m n.
Proof.
  split.
  - induction 1 as [|x z l n (y & HP & HQ) _ (m & Hm1 & Hm2)].
    + exists []. by split; constructor.
    + exists (y :: m). by split; constructor.
  - intros (m & H1 & H2). revert n H2.
    induction H1 as [|x y l m HP _ IH]; intros n H2.
    + inversion H2. constructor.
    + inversion H2 as [|? z ? n' HQ Hn']; simplify_eq.
      constructor; [by exists y | by apply IH].
Qed.

Lemma Forall2_fmap_eq {A B} (f : A → B) l k :
  Forall2 (λ y z, z = f y) l k ↔ k = f <$> l.
Proof.
  split.
  - induction 1; simplify_eq/=; done.
  - intros ->. induction l; by constructor.
Qed.

(** A loop over the columns of a frame whose body works row by row reads,
    row by row, as the loop over the columns of each row. *)
Lemma mapM_for_loop {A B} (f : A → B → result A) (l : list B) rs rs' :
  mapM (λ r, for_loop f r l) rs = Ok rs' ↔
  for_loop (λ rs c, mapM (λ r, f r c) rs) rs l = Ok rs'.
Proof.
  revert rs. induction l as [|c l IH]; intros rs; simpl.
  - rewrite mapM_Ok. split.
    + intros H. f_equal. induction H as [|???? [= ->] _ ->]; done.
    + intros [= ->]. induction rs'; by constructor.
  - rewrite bind_Ok, mapM_Ok.
    setoid_rewrite <-IH. setoid_rewrite mapM_Ok.
    rewrite <-Forall2_compose.
    split; intros HF; (eapply Forall2_impl; [exact HF|]); intros r r'; simpl.
    + by intros (y & Hy & H)%bind_Ok; exists y.
    + intros (y & Hy & H). apply bind_Ok. by exists y.
Qed.

(** *** Column labels *)

Lemma zscore_name_inj m m' : zscore_name m = zscore_name m' → m = m'.
Proof. cbv [zscore_name String.append]. congruence. Qed.

Lemma zscore_name_referencia m : zscore_name m ≠ COL_REFERENCIA.
Proof. cbv [zscore_name String.append COL_REFERENCIA]. congruence. Qed.

Lemma elem_of_add_column cols c c' :
  c' ∈ add_column cols c ↔ c' ∈ cols ∨ c' = c.
Proof.
  unfold add_column. case_bool_decide.
  - naive_solver.
  - rewrite elem_of_app, list_elem_of_singleton. done.
Qed.

Lemma elem_of_foldl_add_column l cols c :
  c ∈ foldl add_column cols l ↔ c ∈ cols ∨ c ∈ l.
Proof.
  revert cols. induction l as [|x l IH]; intros cols; simpl.
  - rewrite elem_of_nil. naive_solver.
  - rewrite IH, elem_of_add_column, elem_of_cons. naive_solver.
Qed.

(** *** Rows *)

Lemma lookup_foldr_delete (r : gmap string cell) cols c :
  foldr delete r cols !! c = if decide (c ∈ cols) then None else r !! c.
Proof.
  induction cols as [|x cols IH]; simpl.
  - destruct (decide (c ∈ [])) as [H|_]; [by apply elem_of_nil in H | done].
  - rewrite lookup_delete, IH.
    destruct (decide (x = c)) as [->|Hx], (decide (c ∈ cols)) as [Hc|Hc],
      (decide (c ∈ _ :: cols)) as [Hc'|Hc']; try done;
      exfalso; set_solver.
Qed.

Lemma at_insert (r : gmap string cell) c v c' :
  at_ (<[c:=v]> r) c' = if decide (c = c') then v else at_ r c'.
Proof. unfold at_. rewrite lookup_insert. by case_decide. Qed.

(** *** The pandas operations *)

Lemma mapM_pure {A B} (f : A → B) l :
  mapM (λ x, Ok (f x)) l = Ok (f <$> l).
Proof. apply mapM_Ok. induction l; by constructor. Qed.

Lemma mapM_zip_with {A B C} (g : B → result C) (f : A → B) (h : A → C → A) l k :
  mapM (λ r, v ← g (f r); mret (h r v)) l = Ok k ↔
  ∃ z, mapM g (f <$> l) = Ok z ∧ k = zip_with h l z.
Proof.
  setoid_rewrite mapM_Ok. split.
  - induction 1 as [|r r' l k (v & Hv & [= <-])%bind_Ok _ (z & Hz & ->)].
    + exists []. split; [constructor | done].
    + exists (v :: z). split; [by constructor | done].
  - intros (z & Hz & ->). revert z Hz.
    induction l as [|r l IH]; intros z Hz; inversion Hz; simplify_eq/=.
    + constructor.
    + constructor; [|by apply IH]. apply bind_Ok. eauto.
Qed.

Lemma select_Ok df c test d :
  select df c test = Ok d ↔
  c ∈ columns df ∧
  d = mkDataFrame (columns df) (filter (λ r, test (at_ r c)) (rows df)).
Proof.
  unfold select. case_bool_decide; split.
  - by intros [= <-].
  - by intros [_ ->].
  - done.
  - by intros [? _].
Qed.

Lemma getitems_Ok df cols sub :
  getitems df cols = Ok sub ↔
  (∀ c, c ∈ cols → c ∈ columns df) ∧ sub = mkDataFrame cols (rows df).
Proof.
  unfold getitems.
  destruct (filter _ cols) as [|c l] eqn:Hf; split.
  - intros [= <-]. split; [|done]. intros c Hc.
    destruct (decide (c ∈ columns df)) as [|Hn]; [done|].
    exfalso. assert (c ∈ filter (λ c, c ∉ columns df) cols) as Hin
      by (by apply list_elem_of_filter).
    rewrite Hf in Hin. by apply elem_of_nil in Hin.
  - by intros [_ ->].
  - by case_bool_decide.
  - intros [Hall _]. exfalso.
    assert (c ∈ filter (λ c, c ∉ columns df) cols) as Hc by (rewrite Hf; left).
    apply list_elem_of_filter in Hc as [Hn Hc]. by apply Hn, Hall.
Qed.

Lemma frame_eq d d' :
  columns d = columns d' → rows d = rows d' → d = d'.
Proof. destruct d, d'; simpl; by intros -> ->. Qed.

Lemma zscore_column_Ok stats d col d' :
  col ∈ columns d →
  zscore_column stats d col = Ok d' ↔
  is_Ok (loc stats col) ∧
  columns d' = add_column (columns d) (zscore_name col) ∧
  mapM (λ r, zscore_row stats r col) (rows d) = Ok (rows d').
Proof.
  intros Hcol. unfold zscore_column, zscore_row, is_Ok, getitem.
  rewrite bool_decide_true by done.
  destruct (loc stats col) as [[mean std]|e]; simpl;
    [|split; [done | by intros [[? [=]] _]]].
  fold (degenerate std). destruct (degenerate std).
  - rewrite mapM_pure. split.
    + intros [= <-]. split_and!; [by eexists | done..].
    + intros (_ & Hc & [= Hr]). f_equal. by apply frame_eq.
  - rewrite mapM_zip_with, bind_Ok. split.
    + intros (z & Hz & [= <-]). split_and!; [by eexists | done | by exists z].
    + intros (_ & Hc & z & Hz & Hr). exists z. split; [done|].
      f_equal. by apply frame_eq.
Qed.

Lemma zscore_columns_Ok stats cols d d' :
  (∀ c, c ∈ cols → c ∈ columns d) →
  for_loop (zscore_column stats) d cols = Ok d' ↔
  Forall (λ c, is_Ok (loc stats c)) cols ∧
  columns d' = foldl add_column (columns d) (zscore_name <$> cols) ∧
  mapM (λ r, for_loop (zscore_row stats) r cols) (rows d) = Ok (rows d').
Proof.
  revert d. induction cols as [|c cols IH]; intros d Hsub.
  - simpl. rewrite mapM_pure, list_fmap_id. split.
    + by intros [= <-].
    + intros (_ & Hc & [= Hr]). f_equal. by apply frame_eq.
  - rewrite mapM_for_loop. simpl. rewrite !bind_Ok, Forall_cons. split.
    + intros (d1 & H1 & H2).
      apply zscore_column_Ok in H1 as (Hloc & Hc1 & Hr1); [|apply Hsub; by left].
      apply IH in H2 as (Hall & Hc2 & Hr2).
      * rewrite Hc1 in Hc2. split_and!; [done..|].
        exists (rows d1). split; [done|]. by apply mapM_for_loop.
      * intros c' Hc'. rewrite Hc1, elem_of_add_column. left. apply Hsub. by right.
    + intros ((Hloc & Hall) & Hc & rs1 & Hr1 & Hr2).
      exists (mkDataFrame (add_column (columns d) (zscore_name c)) rs1). split.
      * apply zscore_column_Ok; [apply Hsub; by left | done].
      * apply IH; simpl.
        -- intros c' Hc'. rewrite elem_of_add_column. left. apply Hsub. by right.
        -- split_and!; [done..|]. by apply mapM_for_loop.
Qed.

Lemma comparison_Ok dref dt cols g d :
  columns dt = columns dref →
  comparison dref dt cols g = Ok d ↔
  ∃ stats,
    (sub ← getitems dref cols; agg_mean_std sub) = Ok stats ∧
    Forall (λ c, is_Ok (loc stats c)) cols ∧
    columns d = add_column (foldl add_column (columns dt) (zscore_name <$> cols))
                           COL_REFERENCIA ∧
    Forall2 (λ r o, ∃ r1, for_loop (zscore_row stats) r cols = Ok r1 ∧
                          o = <[COL_REFERENCIA := CStr g]> r1) (rows dt) (rows d).
Proof.
  intros Hcols. unfold comparison.
  setoid_rewrite Forall2_compose. setoid_rewrite <-mapM_Ok.
  destruct (getitems dref cols) as [sub|e] eqn:Hsub; simpl;
    [|split; [done | by intros (? & [=] & _)]].
  apply getitems_Ok in Hsub as [Hsub _]. rewrite <-Hcols in Hsub.
  destruct (agg_mean_std sub) as [stats|e]; simpl;
    [|split; [done | by intros (? & [=] & _)]].
  rewrite bind_Ok. setoid_rewrite zscore_columns_Ok; [|done]. split.
  - intros (d1 & (Hall & Hc & Hr) & [= <-]). exists stats. split_and!; [done..| |].
    + simpl. by rewrite Hc.
    + exists (rows d1). split; [done|]. by apply Forall2_fmap_eq.
  - intros (? & [= <-] & Hall & Hc & rs1 & Hr & HF).
    exists (mkDataFrame (foldl add_column (columns dt) (zscore_name <$> cols)) rs1).
    split; [done|]. f_equal. apply frame_eq; simpl; [done|].
    symmetry. by apply Forall2_fmap_eq.
Qed.

(** *** The loop over the reference groups *)

Lemma empty_reference_frame df g :
  COL_CATEGORIA ∈ columns df →
  empty (reference_frame df g) = bool_decide (¬ has_reference df g).
Proof.
  intros Hcat. unfold empty. simpl.
  case_bool_decide as H; unfold has_reference in H.
  - destruct (reference_rows df g); [done | by exfalso; apply H].
  - destruct (reference_rows df g); [done|].
    destruct (columns df); [by apply elem_of_nil in Hcat | done].
Qed.

Lemma compare_with_Ok df dt cols acc g acc' :
  compare_with df dt cols acc g = Ok acc' ↔
  COL_CATEGORIA ∈ columns df ∧
  if decide (has_reference df g)
  then ∃ d, comparison (reference_frame df g) dt cols g = Ok d ∧ acc' = acc ++ [d]
  else acc' = acc.
Proof.
  unfold compare_with, select. case_bool_decide as Hcat; simpl;
    [|split; [done | by intros [? _]]].
  fold (reference_rows df g). fold (reference_frame df g).
  rewrite empty_reference_frame by done.
  destruct (decide (has_reference df g)) as [Hg|Hg].
  - rewrite bool_decide_false by (by intros H; apply H).
    unfold comparison.
    destruct (getitems (reference_frame df g) cols) as [sub|e]; simpl;
      [|split; [done | by intros (_ & ? & [=] & _)]].
    destruct (agg_mean_std sub) as [stats|e]; simpl;
      [|split; [done | by intros (_ & ? & [=] & _)]].
    destruct (for_loop (zscore_column stats) dt cols) as [d1|e]; simpl;
      [|split; [done | by intros (_ & ? & [=] & _)]].
    split.
    + intros [= <-]. eauto.
    + by intros (_ & ? & [= <-] & ->).
  - rewrite bool_decide_true by done.
    split; [by intros [= <-] | by intros [_ ->]].
Qed.

Lemma compare_loop_Ok df dt cols refs acc acc' :
  for_loop (compare_with df dt cols) acc refs = Ok acc' ↔
  (refs = [] ∨ COL_CATEGORIA ∈ columns df) ∧
  ∃ ds, acc' = acc ++ ds ∧
    Forall2 (λ g d, comparison (reference_frame df g) dt cols g = Ok d)
            (processed df refs) ds.
Proof.
  revert acc. induction refs as [|g refs IH]; intros acc; simpl.
  - split.
    + intros [= <-]. split; [by left|]. exists []. by rewrite app_nil_r.
    + intros (_ & ds & -> & Hds). inversion Hds. by rewrite app_nil_r.
  - rewrite bind_Ok. setoid_rewrite compare_with_Ok. setoid_rewrite IH.
    unfold processed. rewrite filter_cons.
    destruct (decide (has_reference df g)) as [Hg|Hg]; split.
    + intros (? & (Hcat & d & Hd & ->) & _ & ds & -> & Hds).
      split; [by right|]. exists (d :: ds). rewrite <-app_assoc.
      split; [done | by constructor].
    + intros ([[=]|Hcat] & ds & -> & Hds).
      inversion Hds as [|? d ? ds' Hd Hds']; simplify_eq.
      exists (acc ++ [d]). split; [eauto|]. split; [by right|].
      exists ds'. by rewrite <-app_assoc.
    + intros (? & (Hcat & ->) & _ & ds & -> & Hds). split; [by right | eauto].
    + intros ([[=]|Hcat] & ds & -> & Hds). exists acc.
      split; [done|]. split; [by right | eauto].
Qed.

Lemma calculate_Ok df targets refs cols out :
  calculate_dual_zscore df targets refs cols = Ok out ↔
  COL_JUGADOR ∈ columns df ∧ (refs = [] ∨ COL_CATEGORIA ∈ columns df) ∧
  ∃ ds,
    Forall2 (λ g d, comparison (reference_frame df g) (target_frame df targets)
                               cols g = Ok d) (processed df refs) ds ∧
    out = assemble cols ds.
Proof.
  unfold calculate_dual_zscore, select. case_bool_decide as Hjug; simpl;
    [|split; [done | by intros [? _]]].
  fold (target_rows df targets). fold (target_frame df targets).
  rewrite bind_Ok. setoid_rewrite compare_loop_Ok. split.
  - intros (? & (Hcat & ds & -> & Hds) & Hout). split_and!; [done..|].
    exists ds. split; [done|]. simpl in Hout.
    by destruct ds; injection Hout as <-.
  - intros (_ & Hcat & ds & Hds & ->). exists ds. split; [eauto|].
    by destruct ds.
Qed.

(** *** Assembling the result *)

Lemma elem_of_columns_concat ds c :
  c ∈ columns (concat_frames ds) ↔ ∃ d, d ∈ ds ∧ c ∈ columns d.
Proof.
  unfold concat_frames. simpl.
  assert (∀ acc, c ∈ foldl (λ cols df, foldl add_column cols (columns df)) acc ds
                 ↔ c ∈ acc ∨ ∃ d, d ∈ ds ∧ c ∈ columns d) as H.
  { induction ds as [|d ds IH]; intros acc; simpl.
    - split; [by left | intros [?|(d & Hd & _)]; [done | by apply elem_of_nil in Hd]].
    - rewrite IH, elem_of_foldl_add_column. split.
      + intros [[?|?]|(d' & Hd' & ?)]; [by left | right; exists d | right; exists d'];
          (split; [|done]); [by left | by right].
      + intros [?|(d' & [->|Hd']%elem_of_cons & ?)]; [by left; left | by left; right |].
        right. by exists d'. }
  rewrite H. split; [intros [Hn|?]; [by apply elem_of_nil in Hn | done] | by right].
Qed.

Lemma filter_all {A} (P : A → Prop) `{∀ x, Decision (P x)} (l : list A) :
  (∀ x, x ∈ l → P x) → filter P l = l.
Proof.
  induction l as [|x l IH]; intros Hall; [done|].
  rewrite filter_cons_True by (apply Hall; by left).
  f_equal. apply IH. intros y Hy. apply Hall. by right.
Qed.

Lemma filter_none {A} (P : A → Prop) `{∀ x, Decision (P x)} (l : list A) :
  (∀ x, x ∈ l → ¬ P x) → filter P l = [].
Proof.
  induction l as [|x l IH]; intros Hall; [done|].
  rewrite filter_cons_False by (apply Hall; by left).
  apply IH. intros y Hy. apply Hall. by right.
Qed.

Lemma comparison_columns dref dt cols g d c :
  columns dt = columns dref →
  comparison dref dt cols g = Ok d →
  c ∈ columns d ↔
  c ∈ columns dt ∨ c = COL_REFERENCIA ∨ ∃ m, m ∈ cols ∧ c = zscore_name m.
Proof.
  intros Hc (stats & _ & _ & -> & _)%comparison_Ok; [|done].
  rewrite elem_of_add_column, elem_of_foldl_add_column, list_elem_of_fmap.
  naive_solver.
Qed.

Lemma comparison_value_cols dref dt cols g d c :
  columns dt = columns dref →
  comparison dref dt cols g = Ok d →
  c ∈ cols → c ∈ columns d.
Proof.
  intros Hc Hd Hin. eapply comparison_columns; [done..|]. left.
  unfold comparison in Hd. apply bind_Ok in Hd as (sub & Hsub & _).
  apply getitems_Ok in Hsub as [Hsub _]. rewrite Hc. by apply Hsub.
Qed.

Lemma assemble_cons cols d ds :
  (∀ c, c ∈ cols → c ∈ columns d) →
  assemble cols (d :: ds) = drop (concat_frames (d :: ds)) cols.
Proof.
  intros Hsub. unfold assemble. f_equal. apply filter_all.
  intros c Hc. apply elem_of_columns_concat. exists d. split; [by left | by apply Hsub].
Qed.

Lemma rows_assemble df dt cols gs ds :
  columns dt = columns df →
  Forall2 (λ g d, comparison (reference_frame df g) dt cols g = Ok d) gs ds →
  rows (assemble cols ds) = (λ r, foldr delete r cols) <$> mjoin (rows <$> ds).
Proof.
  intros Hc Hds. destruct Hds as [|g d gs ds Hd Hds]; [done|].
  rewrite assemble_cons; [reflexivity|].
  intros c Hin.
  exact (comparison_value_cols (reference_frame df g) _ _ _ _ _ Hc Hd Hin).
Qed.

(** The rows of the result, pass by pass and row by row. *)
Lemma calculate_blocks df targets refs cols out :
  calculate_dual_zscore df targets refs cols = Ok out →
  ∃ blocks,
    rows out = mjoin blocks ∧
    Forall2 (λ g block, Forall2 (row_result df cols g) (target_rows df targets) block)
            (processed df refs) blocks.
Proof.
  intros (_ & _ & ds & Hds & ->)%calculate_Ok.
  exists ((λ d, (λ r, foldr delete r cols) <$> rows d) <$> ds). split.
  - rewrite (rows_assemble df (target_frame df targets) cols _ ds eq_refl Hds).
    clear Hds. induction ds as [|d ds IH]; csimpl; [done|].
    by rewrite fmap_app, IH.
  - apply Forall2_fmap_r. eapply Forall2_impl; [exact Hds|].
    intros g d (stats & Hstats & _ & _ & Hrows)%comparison_Ok; [|done].
    simpl in *. apply Forall2_fmap_r. eapply Forall2_impl; [exact Hrows|].
    intros r o (r1 & Hr1 & ->). by exists stats, r1.
Qed.

(** *** One row through the loop over the metrics *)

Lemma zscore_row_numeric stats r col mean std x :
  loc stats col = Ok (mean, std) →
  at_ r col = CNum x →
  zscore_row stats r col = Ok (<[zscore_name col := CNum (zscore mean std x)]> r).
Proof.
  intros Hloc Hx. unfold zscore_row, zscore, standardize. rewrite Hloc, Hx. simpl.
  by destruct (degenerate std).
Qed.

Lemma zscore_row_Ok stats r col r' :
  zscore_row stats r col = Ok r' → ∃ v, r' = <[zscore_name col := v]> r.
Proof.
  unfold zscore_row. intros ([mean std] & _ & H)%bind_Ok.
  destruct (degenerate std).
  - injection H as <-. eauto.
  - apply bind_Ok in H as (v & _ & [= <-]). eauto.
Qed.

(** The loop writes score fields only. *)
Lemma zscore_rows_untouched stats cols r r1 c :
  for_loop (zscore_row stats) r cols = Ok r1 →
  (∀ m, m ∈ cols → c ≠ zscore_name m) →
  r1 !! c = r !! c.
Proof.
  revert r. induction cols as [|m cols IH]; intros r; simpl.
  - by intros [= <-].
  - intros (r' & Hr' & H)%bind_Ok Hc.
    apply zscore_row_Ok in Hr' as (v & ->).
    rewrite (IH _ H) by (intros m' Hm'; apply Hc; by right).
    rewrite lookup_insert_ne; [done|]. intros Heq. by apply (Hc m); [left|].
Qed.

(** The score field of a requested metric holds the score of the row's raw
    value, provided the metric is not itself named like a score field of a
    requested metric. *)
Lemma zscore_rows_score stats cols r r1 col mean std x :
  for_loop (zscore_row stats) r cols = Ok r1 →
  col ∈ cols →
  (∀ m, m ∈ cols → col ≠ zscore_name m) →
  loc stats col = Ok (mean, std) →
  at_ r col = CNum x →
  r1 !! zscore_name col = Some (CNum (zscore mean std x)).
Proof.
  intros Hloop Hin Hname Hloc Hx.
  assert (col ∈ cols ∨ r !! zscore_name col = Some (CNum (zscore mean std x)))
    as Hinv by (by left).
  clear Hin. revert r Hloop Hx Hinv.
  induction cols as [|m cols IH]; intros r; simpl.
  - intros [= <-] _ [Hin|Hr]; [by apply elem_of_nil in Hin | done].
  - intros (r' & Hr' & H)%bind_Ok Hx Hinv.
    assert (at_ r' col = CNum x) as Hx'.
    { apply zscore_row_Ok in Hr' as (v & ->). rewrite at_insert.
      rewrite decide_False; [done|]. intros Heq. by apply (Hname m); [left|]. }
    apply (IH (λ m' Hm', Hname m' (list_elem_of_further _ _ _ Hm')) r' H Hx').
    destruct (decide (m = col)) as [->|Hne].
    + right. rewrite (zscore_row_numeric _ _ _ _ _ _ Hloc Hx) in Hr'.
      injection Hr' as <-. by rewrite lookup_insert_eq.
    + destruct Hinv as [[->|Hin]%elem_of_cons|Hr]; [done | by left | right].
      apply zscore_row_Ok in Hr' as (v & ->).
      rewrite lookup_insert_ne; [done|]. by intros ?%zscore_name_inj.
Qed.

(** On a row that holds numbers under the requested metrics the loop does
    not raise. *)
Lemma zscore_rows_total stats cols0 cols r :
  numeric_row cols0 r →
  (∀ c, c ∈ cols → c ∈ cols0) →
  Forall (λ c, is_Ok (loc stats c)) cols →
  is_Ok (for_loop (zscore_row stats) r cols).
Proof.
  revert r. induction cols as [|m cols IH]; intros r Hnum Hsub Hloc; simpl.
  - by eexists.
  - apply Forall_cons in Hloc as [[[mean std] Hm] Hloc].
    destruct (Hnum m) as [x Hx]; [apply Hsub; by left|].
    rewrite (zscore_row_numeric _ _ _ _ _ _ Hm Hx). simpl. apply IH; [|set_solver|done].
    intros c Hc. rewrite at_insert. case_decide; [by eexists | by apply Hnum].
Qed.

(** *** The statistics table *)

Lemma agg_mean_std_Ok cols rs stats :
  agg_mean_std (mkDataFrame cols rs) = Ok stats ↔
  cols ≠ [] ∧
  Forall2 (λ c e, ∃ xs, mapM to_float (metric_values rs c) = Ok xs ∧
                        e = (c, (nanmean xs, nanstd xs))) cols stats.
Proof.
  unfold agg_mean_std. cbn [columns rows].
  destruct cols as [|c cols]; [by split; [|intros [? _]]|].
  cbv beta iota. fold (metric_values rs). rewrite mapM_Ok. split.
  - intros H. split; [done|]. eapply Forall2_impl; [exact H|].
    intros c' e (xs & Hxs & [= <-])%bind_Ok. eauto.
  - intros [_ H]. eapply Forall2_impl; [exact H|].
    intros c' e (xs & Hxs & ->). apply bind_Ok. eauto.
Qed.

Lemma reference_stats_Ok df g cols stats :
  reference_stats df g cols = Ok stats ↔
  (∀ c, c ∈ cols → c ∈ columns df) ∧ cols ≠ [] ∧
  Forall2 (λ c e, ∃ xs, mapM to_float (metric_values (reference_rows df g) c) = Ok xs ∧
                        e = (c, (nanmean xs, nanstd xs))) cols stats.
Proof.
  unfold reference_stats. rewrite bind_Ok. setoid_rewrite getitems_Ok. split.
  - intros (sub & [Hsub ->] & H). apply agg_mean_std_Ok in H. naive_solver.
  - intros (Hsub & H). eexists. split; [done|]. by apply agg_mean_std_Ok.
Qed.

Lemma stats_labels rs cols (stats : list (string * (float * float))) :
  Forall2 (λ c e, ∃ xs, mapM to_float (metric_values rs c) = Ok xs ∧
                        e = (c, (nanmean xs, nanstd xs))) cols stats →
  stats.*1 = cols.
Proof. induction 1 as [|???? (? & _ & ->)]; csimpl; congruence. Qed.

Lemma loc_Ok stats col mean std :
  loc stats col = Ok (mean, std) → (col, (mean, std)) ∈ stats.
Proof.
  unfold loc. destruct (filter _ stats) as [|e [|??]] eqn:Hf; try done.
  intros [= He].
  assert (e ∈ filter (λ e, e.1 = col) stats) as Hin by (rewrite Hf; left).
  apply list_elem_of_filter in Hin as [<- Hin]. by destruct e; simplify_eq/=.
Qed.

Lemma loc_NoDup (stats : list (string * (float * float))) col :
  NoDup stats.*1 → col ∈ stats.*1 → is_Ok (loc stats col).
Proof.
  unfold loc, is_Ok.
  induction stats as [|[c e] stats IH]; csimpl; intros Hnd Hin.
  - by apply elem_of_nil in Hin.
  - apply NoDup_cons in Hnd as [Hc Hnd]. rewrite filter_cons. simpl.
    destruct (decide (c = col)) as [->|Hne].
    + rewrite filter_none; [by eexists|].
      intros [c' e'] Hin' ?. simplify_eq/=.
      apply Hc. apply list_elem_of_fmap. by exists (col, e').
    + apply IH; [done|].
      by apply elem_of_cons in Hin as [->|?].
Qed.

(** What the statistics table holds for a metric: the mean and standard
    deviation of the metric's values over the reference population. *)
Lemma loc_reference_stats df g cols stats col mean std :
  reference_stats df g cols = Ok stats →
  loc stats col = Ok (mean, std) →
  ∃ xs, mapM to_float (metric_values (reference_rows df g) col) = Ok xs ∧
        mean = nanmean xs ∧ std = nanstd xs.
Proof.
  intros (_ & _ & HF)%reference_stats_Ok Hin%loc_Ok.
  apply list_elem_of_lookup in Hin as [i Hi].
  destruct (Forall2_lookup_r _ _ _ _ _ HF Hi) as (c & _ & xs & Hxs & [= -> -> ->]).
  eauto.
Qed.


(** *** Output rows *)

Lemma Forall2_with_elem {A B} (P : A → B → Prop) l k :
  Forall2 P l k → Forall2 (λ x y, x ∈ l ∧ P x y) l k.
Proof.
  induction 1 as [|x y l k HP _ IH]; constructor.
  - split; [by left | done].
  - eapply Forall2_impl; [exact IH|]. intros x' y' [? ?]. split; [by right | done].
Qed.

Lemma row_result_referencia df cols g r o :
  row_result df cols g r o →
  o !! COL_REFERENCIA =
    if decide (COL_REFERENCIA ∈ cols) then None else Some (CStr g).
Proof.
  intros (stats & r1 & _ & _ & ->). rewrite lookup_foldr_delete.
  case_decide; [done|]. by rewrite lookup_insert_eq.
Qed.

Lemma row_result_tagged df cols g r o g' :
  row_result df cols g r o →
  tagged g' o ↔ (COL_REFERENCIA ∉ cols) ∧ g = g'.
Proof.
  intros Hro. unfold tagged. rewrite (row_result_referencia _ _ _ _ _ Hro).
  case_decide; simpl; [naive_solver|].
  rewrite bool_decide_spec. naive_solver.
Qed.

Lemma row_result_untouched df cols g r o c :
  row_result df cols g r o → untouched cols c → o !! c = r !! c.
Proof.
  intros (stats & r1 & _ & Hr1 & ->) (Hc & Href & Hz).
  rewrite lookup_foldr_delete, decide_False by done.
  rewrite lookup_insert_ne by done. by eapply zscore_rows_untouched.
Qed.

Lemma untouched_jugador cols : COL_JUGADOR ∉ cols → untouched cols COL_JUGADOR.
Proof.
  intros Hc. split_and!; [done | done |].
  intros m _. cbv [zscore_name String.append COL_JUGADOR]. congruence.
Qed.

Lemma row_result_entity df cols g r o e :
  row_result df cols g r o → COL_JUGADOR ∉ cols →
  of_entity e o = of_entity e r.
Proof.
  intros Hro Hc. unfold of_entity, at_.
  by rewrite (row_result_untouched _ _ _ _ _ _ Hro (untouched_jugador _ Hc)).
Qed.

Lemma Forall2_elem_of_r {A B} (P : A → B → Prop) l k y :
  Forall2 P l k → y ∈ k → ∃ x, x ∈ l ∧ P x y.
Proof.
  intros HF [i Hi]%list_elem_of_lookup.
  destruct (Forall2_lookup_r _ _ _ _ _ HF Hi) as (x & Hx & HP).
  exists x. split; [|done]. apply list_elem_of_lookup. eauto.
Qed.

Lemma Forall2_elem_of_l {A B} (P : A → B → Prop) l k x :
  Forall2 P l k → x ∈ l → ∃ y, y ∈ k ∧ P x y.
Proof.
  intros HF [i Hi]%list_elem_of_lookup.
  destruct (Forall2_lookup_l _ _ _ _ _ HF Hi) as (y & Hy & HP).
  exists y. split; [|done]. apply list_elem_of_lookup. eauto.
Qed.

(** Every output row is the result of one target row in the pass of one
    processed group. *)
Lemma calculate_rows_elem df targets refs cols out o :
  calculate_dual_zscore df targets refs cols = Ok out →
  o ∈ rows out →
  ∃ g r, g ∈ processed df refs ∧ r ∈ target_rows df targets ∧
         row_result df cols g r o.
Proof.
  intros (blocks & -> & HF)%calculate_blocks (b & Ho & Hb)%list_elem_of_join.
  destruct (Forall2_elem_of_r _ _ _ _ HF Hb) as (g & Hg & Hrows).
  destruct (Forall2_elem_of_r _ _ _ _ Hrows Ho) as (r & Hr & Hro).
  by exists g, r.
Qed.

Lemma filter_length_Forall2 {A B} (P : A → Prop) (Q : B → Prop)
    `{∀ x, Decision (P x)} `{∀ y, Decision (Q y)} (l : list A) (k : list B) :
  Forall2 (λ x y, P x ↔ Q y) l k →
  length (filter P l) = length (filter Q k).
Proof.
  induction 1 as [|x y l k Hxy _ IH]; [done|].
  rewrite !filter_cons.
  destruct (decide (P x)), (decide (Q y)); simpl; try lia; tauto.
Qed.

Lemma filter_target_entity df targets e :
  e ∈ targets →
  filter (of_entity e) (target_rows df targets) = filter (of_entity e) (rows df).
Proof.
  intros He. unfold target_rows. rewrite list_filter_filter.
  apply list_filter_iff. intros r. split; [tauto|]. intros Hr. split; [done|].
  unfold of_entity, cell_eq, cell_isin in *.
  destruct (at_ r COL_JUGADOR); [|done].
  apply bool_decide_unpack in Hr as ->. by apply bool_decide_pack.
Qed.
(** *** Properties of the calculator *)

(** C3. A requested reference group without matching records leaves no
    row tagged with it in the result, and when no requested group has
    matching records the calculator returns the empty frame instead of
    raising. *)
Theorem skip_on_empty_reference df targets refs cols :
  COL_JUGADOR ∈ columns df →
  COL_CATEGORIA ∈ columns df →
  (∀ out g, calculate_dual_zscore df targets refs cols = Ok out →
            reference_rows df g = [] →
            Forall (λ o, ¬ tagged g o) (rows out)) ∧
  ((∀ g, g ∈ refs → reference_rows df g = []) →
   calculate_dual_zscore df targets refs cols = Ok empty_frame).
Proof.
  intros Hjug Hcat. split.
  - intros out g Hout Hg. apply Forall_forall. intros o Ho Htag.
    destruct (calculate_rows_elem _ _ _ _ _ _ Hout Ho) as (g' & r & Hg' & _ & Hro).
    destruct (proj1 (row_result_tagged _ _ _ _ _ g Hro) Htag) as [_ Heq]. subst g'.
    apply list_elem_of_filter in Hg' as [Hg' _]. by apply Hg'.
  - intros Hall. apply calculate_Ok. split_and!; [done | by right |].
    exists []. split; [|done]. unfold processed.
    rewrite filter_none; [constructor|]. intros g Hg Href. by apply Href, Hall.
Qed.

(** C8. The rows of the result are grouped by reference group, the
    processed groups in the order they were given; within a group the
    rows follow the order of the target rows, every output row standing
    for the target row at its position. *)
Theorem result_order df targets refs cols out :
  calculate_dual_zscore df targets refs cols = Ok out →
  COL_REFERENCIA ∉ cols →
  ∃ blocks,
    rows out = mjoin blocks ∧
    Forall2 (λ g block,
               Forall2 (λ r o, tagged g o ∧
                               ∀ c, untouched cols c → o !! c = r !! c)
                       (target_rows df targets) block)
            (processed df refs) blocks.
Proof.
  intros (blocks & Hrows & HF)%calculate_blocks Href.
  exists blocks. split; [done|].
  eapply Forall2_impl; [exact HF|]. intros g block Hblock. simpl in *.
  eapply Forall2_impl; [exact Hblock|]. intros r o Hro. split.
  - by apply (row_result_tagged _ _ _ _ _ g Hro).
  - intros c. by apply (row_result_untouched _ _ _ _ _ c Hro).
Qed.

(** *** The calculator under its input contract *)

Lemma Forall_exists_Forall2 {A B} (P : A → B → Prop) l :
  Forall (λ x, ∃ y, P x y) l → ∃ k, Forall2 P l k.
Proof.
  induction 1 as [|x l [y Hy] _ [k Hk]].
  - exists []. constructor.
  - exists (y :: k). by constructor.
Qed.

Lemma numeric_metric_values cols rs c :
  Forall (numeric_row cols) rs → c ∈ cols →
  is_Ok (mapM to_float (metric_values rs c)).
Proof.
  intros Hnum Hc. unfold is_Ok. setoid_rewrite mapM_Ok.
  apply Forall_exists_Forall2, Forall_fmap.
  eapply Forall_impl; [exact Hnum|]. intros r Hr. simpl.
  destruct (Hr c Hc) as [x ->]. by exists x.
Qed.

Lemma reference_stats_total df g cols :
  contract df cols →
  ∃ stats, reference_stats df g cols = Ok stats ∧
           Forall (λ c, is_Ok (loc stats c)) cols.
Proof.
  intros [_ _ Hne Hnd Hsub Hnum].
  assert (Forall (numeric_row cols) (reference_rows df g)) as Hnum'.
  { apply Forall_forall. intros r [_ Hr]%list_elem_of_filter.
    by eapply Forall_forall in Hnum. }
  destruct (Forall_exists_Forall2
    (λ c e, ∃ xs, mapM to_float (metric_values (reference_rows df g) c) = Ok xs ∧
                  e = (c, (nanmean xs, nanstd xs))) cols) as [stats Hstats].
  { apply Forall_forall. intros c Hc.
    destruct (numeric_metric_values _ _ _ Hnum' Hc) as [xs Hxs]. eauto. }
  exists stats. split; [by apply reference_stats_Ok|].
  apply Forall_forall. intros c Hc. apply loc_NoDup.
  - by rewrite (stats_labels _ _ _ Hstats).
  - by rewrite (stats_labels _ _ _ Hstats).
Qed.

Lemma comparison_total df targets g cols :
  contract df cols →
  is_Ok (comparison (reference_frame df g) (target_frame df targets) cols g).
Proof.
  intros Hc. destruct (reference_stats_total df g cols Hc) as (stats & Hstats & Hloc).
  destruct (Forall_exists_Forall2
    (λ r o, ∃ r1, for_loop (zscore_row stats) r cols = Ok r1 ∧
                  o = <[COL_REFERENCIA := CStr g]> r1)
    (target_rows df targets)) as [os Hos].
  { apply Forall_forall. intros r [_ Hr]%list_elem_of_filter.
    destruct (zscore_rows_total stats cols cols r) as [r1 Hr1]; [|done|done|eauto].
    destruct Hc as [_ _ _ _ _ Hnum]. by eapply Forall_forall in Hnum. }
  eexists (mkDataFrame _ os). apply comparison_Ok; [done|].
  exists stats. split_and!; [done | done | reflexivity | done].
Qed.

Lemma calculate_total df targets refs cols :
  contract df cols →
  is_Ok (calculate_dual_zscore df targets refs cols).
Proof.
  intros Hc.
  destruct (Forall_exists_Forall2
    (λ g d, comparison (reference_frame df g) (target_frame df targets) cols g = Ok d)
    (processed df refs)) as [ds Hds].
  { apply Forall_forall. intros g _. by apply comparison_total. }
  exists (assemble cols ds). apply calculate_Ok.
  destruct Hc. split_and!; [done | by right |]. by exists ds.
Qed.

Lemma target_rows_nil df : target_rows df [] = [].
Proof.
  unfold target_rows. apply filter_none. intros r _.
  unfold cell_isin. destruct (at_ r COL_JUGADOR); [|by intros []].
  rewrite bool_decide_false; [by intros [] | apply not_elem_of_nil].
Qed.

Lemma bind_ok {A B} (a : A) (f : A → result B) : Ok a ≫= f = f a.
Proof. done. Qed.

Lemma bind_raise {A B} e (f : A → result B) : Raise e ≫= f = Raise e.
Proof. done. Qed.

Lemma for_loop_cons {S A} (body : S → A → result S) s x l :
  for_loop body s (x :: l) = s' ← body s x; for_loop body s' l.
Proof. done. Qed.

Lemma select_missing df c test :
  c ∉ columns df → select df c test = Raise (KeyError c).
Proof. intros Hc. unfold select. by rewrite bool_decide_false. Qed.

Lemma select_present df c test :
  c ∈ columns df →
  select df c test
  = Ok (mkDataFrame (columns df) (filter (λ r, test (at_ r c)) (rows df))).
Proof. intros Hc. unfold select. by rewrite bool_decide_true. Qed.

Lemma compare_with_no_category df dt cols acc g :
  COL_CATEGORIA ∉ columns df →
  compare_with df dt cols acc g = Raise (KeyError COL_CATEGORIA).
Proof. intros Hcat. unfold compare_with. by rewrite select_missing. Qed.

Lemma compare_with_skip df dt cols acc g :
  COL_CATEGORIA ∈ columns df → ¬ has_reference df g →
  compare_with df dt cols acc g = Ok acc.
Proof. intros Hcat Hg. apply compare_with_Ok. by rewrite decide_False. Qed.

(** With no metric requested, the first requested group that has records
    makes the aggregation raise. *)
Lemma compare_loop_no_metrics df dt refs acc :
  COL_CATEGORIA ∈ columns df →
  for_loop (compare_with df dt []) acc refs
  = if decide (processed df refs = []) then Ok acc else Raise ValueError.
Proof.
  intros Hcat. induction refs as [|g refs IH]; [done|].
  rewrite for_loop_cons. unfold processed in *. rewrite filter_cons.
  destruct (decide (has_reference df g)) as [Hg|Hg].
  - unfold compare_with. rewrite select_present, bind_ok by done.
    fold (reference_rows df g). fold (reference_frame df g).
    rewrite empty_reference_frame by done.
    by rewrite bool_decide_false by (by intros Hn; apply Hn).
  - by rewrite compare_with_skip, bind_ok by done.
Qed.

(** Without target rows a pass succeeds exactly when the statistics of
    the group can be computed and looked up. *)
Lemma comparison_no_targets df g cols :
  is_Ok (comparison (reference_frame df g) (target_frame df []) cols g) ↔
  ∃ stats, reference_stats df g cols = Ok stats ∧
           Forall (λ c, is_Ok (loc stats c)) cols.
Proof.
  unfold is_Ok at 1. setoid_rewrite comparison_Ok; [|done].
  cbn [rows target_frame]. rewrite target_rows_nil. split.
  - intros (d & stats & Hstats & Hloc & _). by exists stats.
  - intros (stats & Hstats & Hloc).
    exists (mkDataFrame
              (add_column (foldl add_column (columns df) (zscore_name <$> cols))
                          COL_REFERENCIA) []), stats.
    split_and!; [done | done | done | constructor].
Qed.

Lemma Forall2_is_Ok {A B} (f : A → result B) l :
  (∃ k, Forall2 (λ x y, f x = Ok y) l k) ↔ Forall (λ x, is_Ok (f x)) l.
Proof.
  split.
  - intros (k & Hk). induction Hk; constructor; [by eexists | done].
  - apply Forall_exists_Forall2.
Qed.

(** C4, as the calculator has it.  Without reference groups the result is
    the empty frame.  Without target entities the statistics of every
    requested group that has records are computed all the same: the
    calculator returns exactly when they can be computed and looked up -
    as they can on records that meet the input contract - and then the
    result has no rows.  Without metrics the result is the empty frame
    when no requested group has records, and a ValueError otherwise.  The
    guard against empty selections is in the page, which shows a notice
    and returns before it calls the calculator. *)
Theorem empty_selections df targets refs cols :
  COL_JUGADOR ∈ columns df →
  calculate_dual_zscore df targets [] cols = Ok empty_frame ∧
  ((∀ out, calculate_dual_zscore df [] refs cols = Ok out → rows out = []) ∧
   (is_Ok (calculate_dual_zscore df [] refs cols) ↔
    (refs = [] ∨ COL_CATEGORIA ∈ columns df) ∧
    ∀ g, g ∈ processed df refs →
         ∃ stats, reference_stats df g cols = Ok stats ∧
                  Forall (λ c, is_Ok (loc stats c)) cols) ∧
   (contract df cols → is_Ok (calculate_dual_zscore df [] refs cols))) ∧
  (COL_CATEGORIA ∈ columns df →
   calculate_dual_zscore df targets refs []
   = if decide (processed df refs = []) then Ok empty_frame
     else Raise ValueError) ∧
  (∀ players selected_players selected_references selected_metrics,
     empty df = false →
     all_players df = Ok players →
     selected_players = [] ∨ selected_references = [] ∨ selected_metrics = [] →
     main df selected_players selected_references selected_metrics = Ok Info).
Proof.
  intros Hjug. split_and!.
  - apply calculate_Ok. split_and!; [done | by left |]. exists []. by split.
  - intros out (blocks & -> & HF)%calculate_blocks.
    rewrite target_rows_nil in HF.
    induction HF as [|g b gs bs Hb _ IH]; [done|].
    inversion Hb; simplify_eq. by csimpl.
  - unfold is_Ok at 1. setoid_rewrite calculate_Ok.
    setoid_rewrite <-comparison_no_targets. rewrite <-Forall_forall.
    rewrite <-Forall2_is_Ok. naive_solver.
  - apply calculate_total.
  - intros Hcat. unfold calculate_dual_zscore.
    rewrite select_present, bind_ok by done.
    rewrite compare_loop_no_metrics by done. by case_decide.
  - intros players sp sr sm Hdata Hplayers Hsel. unfold main.
    rewrite Hdata, Hplayers, bind_ok.
    destruct Hsel as [Hs|[Hs|Hs]]; subst; [done | by destruct sp | by destruct sp, sr].
Qed.

(** C5, as the calculator has it.  A result with rows has these columns:
    every column of the record set that is not a requested metric, the
    reference group label, and one score field per requested metric whose
    name is not itself a requested metric. *)
Theorem output_columns df targets refs cols out :
  calculate_dual_zscore df targets refs cols = Ok out →
  rows out ≠ [] →
  ∀ c, c ∈ columns out ↔
       (c ∉ cols) ∧
       (c ∈ columns df ∨ c = COL_REFERENCIA ∨ ∃ m, m ∈ cols ∧ c = zscore_name m).
Proof.
  intros (_ & _ & ds & Hds & ->)%calculate_Ok Hrows c.
  destruct ds as [|d ds]; [done|].
  assert (∀ d', d' ∈ d :: ds →
    ∀ c, c ∈ columns d' ↔
         c ∈ columns df ∨ c = COL_REFERENCIA ∨ ∃ m, m ∈ cols ∧ c = zscore_name m)
    as Hcols.
  { intros d' Hd' c'.
    destruct (Forall2_elem_of_r _ _ _ _ Hds Hd') as (g & _ & Hg).
    by apply (comparison_columns (reference_frame df g) (target_frame df targets)
                _ _ _ c' eq_refl Hg). }
  rewrite assemble_cons.
  - unfold drop. cbn [columns]. rewrite list_elem_of_filter, elem_of_columns_concat.
    split.
    + intros (Hc & d' & Hd' & Hin). split; [done|]. by apply (Hcols d').
    + intros (Hc & Hin). split; [done|]. exists d. split; [by left|].
      apply Hcols; [by left | done].
  - intros c' Hc'. inversion Hds; simplify_eq.
    by eapply (comparison_value_cols (reference_frame df _) (target_frame df targets)).
Qed.

(** *** Mean and standard deviation *)

Lemma count_valid xs :
  Forall (λ x, isnan x = false) xs → count xs = length xs.
Proof. intros Hxs. unfold count. f_equal. apply filter_all. by apply Forall_forall. Qed.

Lemma fill_valid xs :
  Forall (λ x, isnan x = false) xs → fill xs = xs.
Proof.
  intros Hxs. unfold fill. induction Hxs as [|x xs Hx _ IH]; csimpl; [done|].
  by rewrite Hx, IH.
Qed.

Lemma to_float_numbers vals : mapM to_float (CNum <$> vals) = Ok vals.
Proof. apply mapM_Ok. induction vals; csimpl; by constructor. Qed.

(** On numbers none of which is NaN the reductions of pandas are the
    arithmetic mean and the sample standard deviation. *)
Lemma nanmean_valid vals :
  Forall (λ x, isnan x = false) vals → vals ≠ [] →
  nanmean vals = arithmetic_mean vals.
Proof.
  intros Hvals Hne. unfold nanmean, arithmetic_mean.
  rewrite count_valid, fill_valid by done. by destruct vals.
Qed.

Lemma nanstd_valid vals :
  Forall (λ x, isnan x = false) vals → 2 ≤ length vals →
  nanstd vals = sample_std vals.
Proof.
  intros Hvals Hlen. unfold nanstd, nanvar, sample_std, arithmetic_mean.
  rewrite count_valid, fill_valid by done.
  destruct (Nat.leb_spec (length vals) 1) as [?|_]; [lia|].
  do 3 f_equal. apply Forall_fmap_ext.
  eapply Forall_impl; [exact Hvals|]. by intros x ->.
Qed.




(** *** Scores *)

Lemma zscore_rows_loc stats cols r r1 col :
  for_loop (zscore_row stats) r cols = Ok r1 → col ∈ cols →
  is_Ok (loc stats col).
Proof.
  revert r. induction cols as [|m cols IH]; intros r; simpl.
  - intros _ Hin. by apply elem_of_nil in Hin.
  - intros (r' & Hr' & H)%bind_Ok [->|Hin]%elem_of_cons; [|by eapply IH].
    unfold zscore_row in Hr'. apply bind_Ok in Hr' as (ms & Hms & _). by exists ms.
Qed.

(** The score field of an output row, from the raw value of its target row
    and the values of the reference population. *)
Lemma row_result_score df cols g r o col xs x :
  row_result df cols g r o →
  distinct_names cols →
  col ∈ cols →
  mapM to_float (metric_values (reference_rows df g) col) = Ok xs →
  at_ r col = CNum x →
  o !! zscore_name col = Some (CNum (zscore (nanmean xs) (nanstd xs) x)).
Proof.
  intros (stats & r1 & Hstats & Hr1 & ->) Hnames Hcol Hxs Hx.
  destruct (zscore_rows_loc _ _ _ _ _ Hr1 Hcol) as [[mean std] Hloc].
  destruct (loc_reference_stats _ _ _ _ _ _ _ Hstats Hloc) as (xs' & Hxs' & -> & ->).
  assert (xs' = xs) as -> by congruence.
  rewrite lookup_foldr_delete.
  rewrite decide_False by (intros Hin; by apply (Hnames col (zscore_name col))).
  rewrite lookup_insert_ne by (intros Heq; by apply (zscore_name_referencia col)).
  eapply zscore_rows_score; [done | done | | done | done].
  intros m Hm. by apply Hnames.
Qed.

Lemma target_rows_elem df targets r :
  r ∈ target_rows df targets → r ∈ rows df.
Proof. by intros [_ ?]%list_elem_of_filter. Qed.

(** C1. For every target row, reference group and requested metric whose
    reference values are numbers with a nonzero, valid sample standard
    deviation, the score is (raw value - mean) / standard deviation, the
    mean being the arithmetic mean and the standard deviation the sample
    standard deviation (denominator N - 1) of the metric over the records
    of the reference group. *)
Theorem zscore_formula df targets refs cols out :
  calculate_dual_zscore df targets refs cols = Ok out →
  distinct_names cols →
  ∃ blocks,
    rows out = mjoin blocks ∧
    Forall2 (λ g block,
      Forall2 (λ r o,
        ∀ col vals x,
          col ∈ cols →
          metric_values (reference_rows df g) col = CNum <$> vals →
          Forall (λ v, isnan v = false) vals →
          2 ≤ length vals →
          degenerate (sample_std vals) = false →
          at_ r col = CNum x →
          o !! zscore_name col
          = Some (CNum (fdiv (fsub x (arithmetic_mean vals)) (sample_std vals))))
        (target_rows df targets) block)
      (processed df refs) blocks.
Proof.
  intros (blocks & Hrows & HF)%calculate_blocks Hnames.
  exists blocks. split; [done|].
  eapply Forall2_impl; [exact HF|]. intros g block Hblock. simpl in *.
  eapply Forall2_impl; [exact Hblock|]. intros r o Hro.
  intros col vals x Hcol Hvals Hnum Hlen Hstd Hx.
  rewrite (row_result_score _ _ _ _ _ col vals x Hro Hnames Hcol).
  - rewrite nanmean_valid, nanstd_valid by (done || (intros ->; simpl in Hlen; lia)).
    unfold zscore. by rewrite Hstd.
  - rewrite Hvals. apply to_float_numbers.
  - done.
Qed.

Lemma to_float_number (vs : list cell) (xs : list float) :
  mapM to_float vs = Ok xs → xs = number <$> vs.
Proof.
  rewrite mapM_Ok. induction 1 as [|v x vs xs Hv _ IH]; csimpl; [done|].
  destruct v; simplify_eq/=. by f_equal.
Qed.

Lemma zscore_row_value stats r col mean std r' :
  loc stats col = Ok (mean, std) →
  zscore_row stats r col = Ok r' →
  r' = <[zscore_name col := CNum (zscore mean std (number (at_ r col)))]> r.
Proof.
  intros Hloc. unfold zscore_row, zscore, standardize. rewrite Hloc. simpl.
  destruct (degenerate std); [by intros [= <-]|].
  destruct (at_ r col); simpl; [done | by intros [= <-]].
Qed.

Lemma zscore_rows_value_from stats cols r r1 col mean std a :
  for_loop (zscore_row stats) r cols = Ok r1 →
  (∀ m, m ∈ cols → col ≠ zscore_name m) →
  loc stats col = Ok (mean, std) →
  at_ r col = a →
  col ∈ cols ∨ r !! zscore_name col = Some (CNum (zscore mean std (number a))) →
  r1 !! zscore_name col = Some (CNum (zscore mean std (number a))).
Proof.
  intros Hloop Hname Hloc. revert r Hloop.
  induction cols as [|m cols IH]; intros r; simpl.
  - intros [= <-] _ [Hin|Hr]; [by apply elem_of_nil in Hin | done].
  - intros (r' & Hr' & H)%bind_Ok Hx Hinv.
    assert (at_ r' col = a) as Hx'.
    { apply zscore_row_Ok in Hr' as (w & ->). rewrite at_insert.
      rewrite decide_False; [done|]. intros Heq. by apply (Hname m); [left|]. }
    apply (IH (λ m' Hm', Hname m' (list_elem_of_further _ _ _ Hm')) r' H Hx').
    destruct (decide (m = col)) as [->|Hne].
    + right. rewrite (zscore_row_value _ _ _ _ _ _ Hloc Hr'), Hx.
      by rewrite lookup_insert_eq.
    + destruct Hinv as [[->|Hin]%elem_of_cons|Hr]; [done | by left | right].
      apply zscore_row_Ok in Hr' as (w & ->).
      rewrite lookup_insert_ne; [done|]. by intros ?%zscore_name_inj.
Qed.

(** The score field of a requested metric after the loop over the metrics,
    whether or not the reference statistics are degenerate. *)
Lemma zscore_rows_value stats cols r r1 col mean std :
  for_loop (zscore_row stats) r cols = Ok r1 →
  col ∈ cols →
  (∀ m, m ∈ cols → col ≠ zscore_name m) →
  loc stats col = Ok (mean, std) →
  r1 !! zscore_name col = Some (CNum (zscore mean std (number (at_ r col)))).
Proof.
  intros Hloop Hin Hname Hloc.
  eapply zscore_rows_value_from; [done | done | done | done | by left].
Qed.

Lemma row_result_expected df cols g r o col :
  row_result df cols g r o →
  distinct_names cols →
  col ∈ cols →
  o !! zscore_name col = Some (expected_score df g col r).
Proof.
  intros (stats & r1 & Hstats & Hr1 & ->) Hnames Hcol.
  destruct (zscore_rows_loc _ _ _ _ _ Hr1 Hcol) as [[mean std] Hloc].
  destruct (loc_reference_stats _ _ _ _ _ _ _ Hstats Hloc) as (xs & Hxs & -> & ->).
  apply to_float_number in Hxs as ->.
  rewrite lookup_foldr_delete.
  rewrite decide_False by (intros Hin; by apply (Hnames col (zscore_name col))).
  rewrite lookup_insert_ne by (intros Heq; by apply (zscore_name_referencia col)).
  eapply zscore_rows_value; [done | done | | done].
  intros m Hm. by apply Hnames.
Qed.

Lemma score_cells df targets refs cols out col :
  calculate_dual_zscore df targets refs cols = Ok out →
  distinct_names cols →
  col ∈ cols →
  (λ o, o !! zscore_name col) <$> rows out = score_column df targets refs col.
Proof.
  intros (blocks & -> & HF)%calculate_blocks Hnames Hcol. unfold score_column.
  induction HF as [|g b gs blocks Hb _ IH]; csimpl; [done|].
  rewrite fmap_app, IH. f_equal.
  clear IH. induction Hb as [|r o rs b Hro _ IH]; csimpl; [done|].
  by rewrite IH, (row_result_expected _ _ _ _ _ col Hro).
Qed.



(** C9. Every processed reference group contributes one output row per
    target row, not per entity: its rows stand for the target rows one by
    one, each tagged with the group, carrying the entity of its own target
    row and scored from the raw values of that row alone against the
    statistics of the group; so a target entity has as many rows in it as
    it has records. *)
Theorem one_row_per_input_row df targets refs cols out :
  calculate_dual_zscore df targets refs cols = Ok out →
  COL_REFERENCIA ∉ cols →
  COL_JUGADOR ∉ cols →
  distinct_names cols →
  ∃ blocks,
    rows out = mjoin blocks ∧
    Forall2 (λ g block,
               Forall2 (λ r o,
                          tagged g o ∧
                          o !! COL_JUGADOR = r !! COL_JUGADOR ∧
                          ∀ col, col ∈ cols →
                                 o !! zscore_name col
                                 = Some (expected_score df g col r))
                       (target_rows df targets) block ∧
               length block = length (target_rows df targets) ∧
               ∀ e, e ∈ targets →
                    length (filter (of_entity e) block)
                    = length (filter (of_entity e) (rows df)))
            (processed df refs) blocks.
Proof.
  intros (blocks & Hrows & HF)%calculate_blocks Href Hjug Hnames.
  exists blocks. split; [done|].
  eapply Forall2_impl; [exact HF|]. intros g block Hblock. simpl in *.
  split_and!.
  - eapply Forall2_impl; [exact Hblock|]. intros r o Hro. split_and!.
    + by apply (row_result_tagged _ _ _ _ _ g Hro).
    + apply (row_result_untouched _ _ _ _ _ _ Hro), untouched_jugador, Hjug.
    + intros col Hcol. by apply (row_result_expected _ _ _ _ _ col Hro).
  - symmetry. by eapply Forall2_length.
  - intros e He. rewrite <-(filter_target_entity df targets e He).
    symmetry. apply filter_length_Forall2.
    eapply Forall2_impl; [exact Hblock|]. intros r o Hro. simpl.
    by rewrite (row_result_entity _ _ _ _ _ e Hro Hjug).
Qed.

(** C10. Target rows are part of the reference populations.  A target row
    whose own group label is a requested reference group belongs to the
    population of that group, which is therefore processed; the value the
    row holds for a requested metric is one of the values the group's mean
    and standard deviation are computed from, and the row is scored
    against exactly those statistics. *)
Theorem targets_in_reference df targets refs cols out :
  calculate_dual_zscore df targets refs cols = Ok out →
  distinct_names cols →
  (∀ g r, g ∈ refs → r ∈ target_rows df targets →
          cell_eq g (at_ r COL_CATEGORIA) →
          r ∈ reference_rows df g ∧ g ∈ processed df refs) ∧
  ∃ blocks,
    rows out = mjoin blocks ∧
    Forall2 (λ g block,
      Forall2 (λ r o,
        cell_eq g (at_ r COL_CATEGORIA) →
        ∀ col x,
          col ∈ cols →
          at_ r col = CNum x →
          ∃ xs,
            mapM to_float (metric_values (reference_rows df g) col) = Ok xs ∧
            x ∈ xs ∧
            o !! zscore_name col
            = Some (CNum (zscore (nanmean xs) (nanstd xs) x)))
        (target_rows df targets) block)
      (processed df refs) blocks.
Proof.
  intros Hout Hnames.
  assert (∀ g r, r ∈ target_rows df targets → cell_eq g (at_ r COL_CATEGORIA) →
                 r ∈ reference_rows df g) as Hmember.
  { intros g r Hr Hg. apply list_elem_of_filter. split; [done|].
    by eapply target_rows_elem. }
  split.
  - intros g r Hg Hr Hcat. split; [by apply Hmember|].
    apply list_elem_of_filter. split; [|done].
    intros Hnil. specialize (Hmember g r Hr Hcat).
    rewrite Hnil in Hmember. by apply elem_of_nil in Hmember.
  - apply calculate_blocks in Hout as (blocks & Hrows & HF).
    exists blocks. split; [done|].
    eapply Forall2_impl; [exact HF|]. intros g block Hblock. simpl in *.
    apply Forall2_with_elem in Hblock.
    eapply Forall2_impl; [exact Hblock|]. intros r o [Hr Hro] Hcat col x Hcol Hx.
    destruct Hro as (stats & r1 & Hstats & Hr1 & Ho).
    pose proof Hstats as (_ & _ & Hagg)%reference_stats_Ok.
    destruct (Forall2_elem_of_l _ _ _ _ Hagg Hcol) as (e & _ & xs & Hxs & _).
    exists xs. split_and!; [done | |].
    + apply mapM_Ok in Hxs.
      assert (at_ r col ∈ metric_values (reference_rows df g) col) as Hin
        by (apply (list_elem_of_fmap_2 (λ r, at_ r col)); by apply Hmember).
      destruct (Forall2_elem_of_l _ _ _ _ Hxs Hin) as (y & Hy & Hfloat).
      rewrite Hx in Hfloat. by injection Hfloat as ->.
    + apply (row_result_score df cols g r o col xs x); [|done..].
      by exists stats, r1.
Qed.

(** *** Removing the records of a group *)

Lemma cell_eq_functional g g' v : cell_eq g v → cell_eq g' v → g = g'.
Proof.
  destruct v as [s|x]; simpl; [|by intros []].
  by intros <-%bool_decide_unpack <-%bool_decide_unpack.
Qed.

Lemma target_rows_remove df targets g2 :
  target_rows (remove_group df g2) targets
  = filter (λ r, ¬ cell_eq g2 (at_ r COL_CATEGORIA)) (target_rows df targets).
Proof.
  unfold target_rows, remove_group. simpl. rewrite !list_filter_filter.
  apply list_filter_iff. tauto.
Qed.

Lemma filter_filter_implied {A} (P Q : A → Prop)
    `{∀ x, Decision (P x)} `{∀ x, Decision (Q x)} (l : list A) :
  (∀ x, P x → Q x) → filter P (filter Q l) = filter P l.
Proof.
  intros Himp. rewrite list_filter_filter. apply list_filter_iff. naive_solver.
Qed.

Lemma reference_rows_remove_ne df g g2 :
  g ≠ g2 → reference_rows (remove_group df g2) g = reference_rows df g.
Proof.
  intros Hne. unfold reference_rows, remove_group. simpl.
  apply filter_filter_implied. intros r Hg Hg2.
  apply Hne. by eapply cell_eq_functional.
Qed.

Lemma reference_rows_remove_eq df g2 :
  reference_rows (remove_group df g2) g2 = [].
Proof.
  unfold reference_rows, remove_group. simpl.
  apply filter_none. by intros r [? _]%list_elem_of_filter.
Qed.

Lemma processed_remove df refs g2 :
  processed (remove_group df g2) refs = filter (λ g, g ≠ g2) (processed df refs).
Proof.
  unfold processed. rewrite list_filter_filter.
  apply list_filter_iff. intros g. unfold has_reference.
  destruct (decide (g = g2)) as [->|Hne].
  - rewrite reference_rows_remove_eq. naive_solver.
  - rewrite reference_rows_remove_ne by done. naive_solver.
Qed.

Lemma reference_frame_remove df g g2 :
  g ≠ g2 → reference_frame (remove_group df g2) g = reference_frame df g.
Proof. intros Hne. unfold reference_frame. by rewrite reference_rows_remove_ne. Qed.

Lemma row_result_functional df cols g r o o' :
  row_result df cols g r o → row_result df cols g r o' → o = o'.
Proof.
  intros (stats & r1 & Hs & Hr & ->) (stats' & r1' & Hs' & Hr' & ->).
  congruence.
Qed.

Lemma block_functional df cols g rs b b' :
  Forall2 (row_result df cols g) rs b →
  Forall2 (row_result df cols g) rs b' → b = b'.
Proof.
  intros H. revert b'. induction H as [|r o rs b Ho _ IH]; intros b' H'.
  - by inversion H'.
  - inversion H' as [|? o' ? b'' Ho' Hb']; simplify_eq.
    f_equal; [by eapply row_result_functional | by apply IH].
Qed.

Lemma block_untagged df cols g g1 rs b :
  g ≠ g1 → Forall2 (row_result df cols g) rs b → filter (tagged g1) b = [].
Proof.
  intros Hne Hb. apply filter_none. intros o Ho Htag.
  destruct (Forall2_elem_of_r _ _ _ _ Hb Ho) as (r & _ & Hro).
  by destruct (proj1 (row_result_tagged _ _ _ _ _ g1 Hro) Htag).
Qed.

Lemma Forall2_filter_l {A B} (P : A → B → Prop) (Q : A → Prop)
    `{∀ x, Decision (Q x)} l k :
  Forall2 P l k → ∃ k', Forall2 P (filter Q l) k'.
Proof.
  induction 1 as [|x y l k HP _ [k' IH]].
  - exists []. constructor.
  - rewrite filter_cons. destruct (decide (Q x)).
    + exists (y :: k'). by constructor.
    + by exists k'.
Qed.

(** The rows tagged with one group do not depend on the passes of another
    group. *)
Lemma row_result_remove df cols g g2 r o :
  g ≠ g2 → row_result (remove_group df g2) cols g r o → row_result df cols g r o.
Proof.
  intros Hne (stats & r1 & Hs & Hr & ->). exists stats, r1. split_and!; [|done..].
  unfold reference_stats in *. by rewrite reference_frame_remove in Hs.
Qed.

(** The group label cannot be a requested metric of a group that has
    records: its statistics would be those of a text column. *)
Lemma reference_stats_category df g cols stats :
  has_reference df g → reference_stats df g cols = Ok stats →
  COL_CATEGORIA ∉ cols.
Proof.
  intros Hg (_ & _ & HF)%reference_stats_Ok Hcat.
  destruct (Forall2_elem_of_l _ _ _ _ HF Hcat) as (e & _ & xs & Hxs & _).
  apply mapM_Ok in Hxs. unfold has_reference in Hg.
  destruct (reference_rows df g) as [|r rs] eqn:Hrs; [done|].
  assert (r ∈ reference_rows df g) as Hr by (rewrite Hrs; left).
  apply list_elem_of_filter in Hr as [Hr _].
  inversion Hxs as [|v x vs xs' Hv _]; simplify_eq.
  unfold cell_eq in Hr. by destruct (at_ r COL_CATEGORIA).
Qed.

Lemma untouched_categoria cols :
  COL_CATEGORIA ∉ cols → untouched cols COL_CATEGORIA.
Proof.
  intros Hc. split_and!; [done | done |].
  intros m _. cbv [zscore_name String.append COL_CATEGORIA]. congruence.
Qed.

(** An output row of a group that has records carries the group label of
    its target row. *)
Lemma row_result_category df cols g r o :
  has_reference df g → row_result df cols g r o →
  at_ o COL_CATEGORIA = at_ r COL_CATEGORIA.
Proof.
  intros Hg Hro. unfold at_.
  rewrite (row_result_untouched _ _ _ _ _ COL_CATEGORIA Hro); [done|].
  destruct Hro as (stats & _ & Hstats & _).
  by eapply untouched_categoria, reference_stats_category.
Qed.

Lemma block_filtered df cols g (P Q : gmap string cell → Prop)
    `{∀ r, Decision (P r)} `{∀ o, Decision (Q o)} rs b b' :
  (∀ r o, row_result df cols g r o → P r ↔ Q o) →
  Forall2 (row_result df cols g) rs b →
  Forall2 (row_result df cols g) (filter P rs) b' →
  b' = filter Q b.
Proof.
  intros HPQ Hb. revert b'.
  induction Hb as [|r o rs b Hro _ IH]; intros b' Hb'.
  - by inversion Hb'.
  - rewrite filter_cons in Hb'. rewrite filter_cons.
    pose proof (HPQ r o Hro) as Hiff.
    destruct (decide (P r)) as [HP|HP], (decide (Q o)) as [HQ|HQ]; try tauto.
    + inversion Hb' as [|? o' ? b'' Ho' Hb'']; simplify_eq.
      f_equal; [by eapply row_result_functional | by apply IH].
    + by apply IH.
Qed.

Lemma filter_comm {A} (P Q : A → Prop)
    `{∀ x, Decision (P x)} `{∀ x, Decision (Q x)} (l : list A) :
  filter P (filter Q l) = filter Q (filter P l).
Proof. rewrite !list_filter_filter. apply list_filter_iff. tauto. Qed.

(** The rows tagged with one group, when the passes of another group are
    left out and the target rows are thinned out. *)
Lemma tagged_rows_filtered df cols (P Q : gmap string cell → Prop)
    `{∀ r, Decision (P r)} `{∀ o, Decision (Q o)} rs g1 g2 gs blocks blocks' :
  g2 ≠ g1 →
  (∀ g r o, g ∈ gs → row_result df cols g r o → P r ↔ Q o) →
  Forall2 (λ g b, Forall2 (row_result df cols g) rs b) gs blocks →
  Forall2 (λ g b, Forall2 (row_result df cols g) (filter P rs) b)
          (filter (λ g, g ≠ g2) gs) blocks' →
  filter (tagged g1) (mjoin blocks') = filter Q (filter (tagged g1) (mjoin blocks)).
Proof.
  intros Hne HPQ Hbs. revert blocks'.
  induction Hbs as [|g b gs blocks Hb _ IH]; intros blocks' H'.
  - by inversion H'.
  - rewrite filter_cons in H'. csimpl. rewrite (filter_app _ b), filter_app.
    assert (∀ g r o, g ∈ gs → row_result df cols g r o → P r ↔ Q o) as HPQ'
      by (intros g' r o Hg'; apply HPQ; by right).
    destruct (decide (g ≠ g2)) as [Hg|Hg].
    + inversion H' as [|? b' ? blocks'' Hb' Hbs']; simplify_eq.
      csimpl. rewrite filter_app, (IH HPQ' _ Hbs'). f_equal.
      rewrite (block_filtered df cols g P Q rs b b'); [apply filter_comm| |done..].
      intros r o. apply HPQ. by left.
    + apply dec_stable in Hg. subst g.
      by rewrite (block_untagged _ _ _ _ _ _ Hne Hb), (IH HPQ' _ H').
Qed.

(** A pass over fewer target rows succeeds when the pass over all of them
    does. *)
Lemma comparison_filter dref dt cols g d (P : gmap string cell → Prop)
    `{∀ r, Decision (P r)} :
  columns dt = columns dref →
  comparison dref dt cols g = Ok d →
  is_Ok (comparison dref (mkDataFrame (columns dt) (filter P (rows dt))) cols g).
Proof.
  intros Hcols (stats & Hstats & Hloc & Hc & HF)%comparison_Ok; [|done].
  destruct (Forall2_filter_l _ P _ _ HF) as [os Hos].
  exists (mkDataFrame (columns d) os). apply comparison_Ok; [done|].
  exists stats. by split_and!.
Qed.

(** C6, as the calculator has it.  Removing the records of reference
    group R2 removes, from the rows tagged with another group R1, exactly
    the rows of the target records that belong to R2 - those records are
    gone from the record set; every other row tagged with R1 stays as it
    is, in the same order. *)
Theorem group_independence df targets refs cols out g1 g2 :
  g2 ≠ g1 →
  calculate_dual_zscore df targets refs cols = Ok out →
  ∃ out',
    calculate_dual_zscore (remove_group df g2) targets refs cols = Ok out' ∧
    filter (tagged g1) (rows out')
    = filter (λ o, ¬ cell_eq g2 (at_ o COL_CATEGORIA))
             (filter (tagged g1) (rows out)).
Proof.
  intros Hne Hcalc.
  pose proof Hcalc as (Hjug & Hcat & ds & Hds & _)%calculate_Ok.
  assert (is_Ok (calculate_dual_zscore (remove_group df g2) targets refs cols))
    as [out' Hcalc'].
  { unfold is_Ok. setoid_rewrite calculate_Ok.
    cut (∃ ds', Forall2 (λ g d, comparison (reference_frame (remove_group df g2) g)
                  (target_frame (remove_group df g2) targets) cols g = Ok d)
                  (processed (remove_group df g2) refs) ds'); [naive_solver|].
    apply Forall2_is_Ok, Forall_forall. intros g Hg.
    rewrite processed_remove in Hg. apply list_elem_of_filter in Hg as [Hg Hin].
    destruct (Forall2_elem_of_l _ _ _ _ Hds Hin) as (d & _ & Hd).
    rewrite reference_frame_remove by done.
    unfold target_frame. rewrite target_rows_remove.
    by apply (comparison_filter (reference_frame df g) (target_frame df targets)
                cols g d). }
  exists out'. split; [done|].
  apply calculate_blocks in Hcalc as (blocks & -> & HF).
  apply calculate_blocks in Hcalc' as (blocks' & -> & HF').
  rewrite processed_remove, target_rows_remove in HF'.
  eapply (tagged_rows_filtered df cols
            (λ r, ¬ cell_eq g2 (at_ r COL_CATEGORIA))
            (λ o, ¬ cell_eq g2 (at_ o COL_CATEGORIA))); [done | | exact HF |].
  - intros g r o [Hg _]%list_elem_of_filter Hro.
    by rewrite (row_result_category _ _ _ _ _ Hg Hro).
  - apply Forall2_with_elem in HF'.
    eapply Forall2_impl; [exact HF'|]. intros g b [[Hg _]%list_elem_of_filter Hb].
    simpl. eapply Forall2_impl; [exact Hb|]. intros r o. by apply row_result_remove.
Qed.

(** *** Further properties of the calculator *)

(** X1. Without the identifier column the calculator raises a KeyError for
    it - in particular on [pd.DataFrame()], the frame the page refuses
    before it calls the calculator; with the identifier column but without
    the group column it raises as soon as there is a reference group to
    look up. *)
Theorem missing_key_column df targets refs cols :
  (COL_JUGADOR ∉ columns df →
   calculate_dual_zscore df targets refs cols = Raise (KeyError COL_JUGADOR)) ∧
  (COL_JUGADOR ∈ columns df → COL_CATEGORIA ∉ columns df → refs ≠ [] →
   calculate_dual_zscore df targets refs cols = Raise (KeyError COL_CATEGORIA)).
Proof.
  unfold calculate_dual_zscore. split.
  - intros Hjug. by rewrite select_missing.
  - intros Hjug Hcat Hrefs. rewrite select_present, bind_ok by done.
    destruct refs as [|g refs]; [done|]. rewrite for_loop_cons.
    by rewrite compare_with_no_category.
Qed.

Lemma filter_length_all {A} (P : A → Prop) `{∀ x, Decision (P x)} (l : list A) :
  length (filter P l) = length l ↔ Forall P l.
Proof.
  induction l as [|x l IH]; [by split; [constructor|]|].
  rewrite filter_cons, Forall_cons. pose proof (length_filter P l).
  destruct (decide (P x)); simpl; [rewrite <-IH|]; split; (lia || tauto || naive_solver).
Qed.

Lemma getitems_missing df cols :
  ¬ (∀ c, c ∈ cols → c ∈ columns df) →
  getitems df cols
  = Raise (if bool_decide (Forall (λ c, c ∉ columns df) cols)
           then KeyErrorNone cols
           else KeyErrorMissing (distinct (filter (λ c, c ∉ columns df) cols))).
Proof.
  intros Hmissing. unfold getitems.
  destruct (filter _ cols) as [|c l] eqn:Hf.
  - exfalso. apply Hmissing. intros c Hc.
    destruct (decide (c ∈ columns df)) as [|Hn]; [done|].
    assert (c ∈ filter (λ c, c ∉ columns df) cols) as Hin
      by (by apply list_elem_of_filter).
    rewrite Hf in Hin. by apply elem_of_nil in Hin.
  - rewrite <-Hf.
    rewrite (bool_decide_ext _ _ (filter_length_all (λ c, c ∉ columns df) cols)).
    by case_bool_decide.
Qed.

Lemma compare_with_missing df dt cols acc g :
  COL_CATEGORIA ∈ columns df → has_reference df g →
  ¬ (∀ c, c ∈ cols → c ∈ columns df) →
  compare_with df dt cols acc g
  = Raise (if bool_decide (Forall (λ c, c ∉ columns df) cols)
           then KeyErrorNone cols
           else KeyErrorMissing (distinct (filter (λ c, c ∉ columns df) cols))).
Proof.
  intros Hcat Hg Hmissing. unfold compare_with.
  rewrite select_present, bind_ok by done.
  fold (reference_rows df g). fold (reference_frame df g).
  rewrite empty_reference_frame by done.
  rewrite bool_decide_false by (by intros Hn; apply Hn).
  by rewrite (getitems_missing (reference_frame df g) cols).
Qed.

(** X2. When requested metrics are not columns of the record set the
    calculator raises one KeyError as soon as a requested reference group
    has records: for the whole list of metrics when none of them is a
    column, and for the distinct missing metrics, in the order they were
    requested, otherwise. *)
Theorem missing_metric_column df targets refs cols :
  COL_JUGADOR ∈ columns df →
  COL_CATEGORIA ∈ columns df →
  processed df refs ≠ [] →
  ¬ (∀ c, c ∈ cols → c ∈ columns df) →
  calculate_dual_zscore df targets refs cols
  = Raise (if bool_decide (Forall (λ c, c ∉ columns df) cols)
           then KeyErrorNone cols
           else KeyErrorMissing (distinct (filter (λ c, c ∉ columns df) cols))).
Proof.
  intros Hjug Hcat Hproc Hmissing. unfold calculate_dual_zscore.
  rewrite select_present, bind_ok by done.
  fold (target_rows df targets). fold (target_frame df targets).
  assert (∀ acc, for_loop (compare_with df (target_frame df targets) cols) acc refs
                 = Raise (if bool_decide (Forall (λ c, c ∉ columns df) cols)
                          then KeyErrorNone cols
                          else KeyErrorMissing
                                 (distinct (filter (λ c, c ∉ columns df) cols))))
    as ->; [|done].
  induction refs as [|g refs IH]; intros acc; [done|]. rewrite for_loop_cons.
  unfold processed in Hproc. rewrite filter_cons in Hproc.
  destruct (decide (has_reference df g)) as [Hg|Hg].
  - by rewrite (compare_with_missing _ _ _ _ _ Hcat Hg Hmissing).
  - rewrite compare_with_skip, bind_ok by done. by apply IH.
Qed.

(** X3. The reference groups are processed one after the other: the rows
    of the result for a list of groups followed by another list are the
    rows for the first list followed by the rows for the second. *)
Theorem reference_lists_concatenate df targets refs1 refs2 cols out :
  calculate_dual_zscore df targets (refs1 ++ refs2) cols = Ok out →
  ∃ out1 out2,
    calculate_dual_zscore df targets refs1 cols = Ok out1 ∧
    calculate_dual_zscore df targets refs2 cols = Ok out2 ∧
    rows out = rows out1 ++ rows out2.
Proof.
  intros (Hjug & Hcat & ds & Hds & ->)%calculate_Ok.
  unfold processed in Hds. rewrite filter_app in Hds.
  apply Forall2_app_inv_l in Hds as (ds1 & ds2 & Hds1 & Hds2 & ->).
  exists (assemble cols ds1), (assemble cols ds2). split_and!.
  - apply calculate_Ok. split_and!; [done| |by exists ds1].
    destruct Hcat as [[-> _]%app_eq_nil|?]; [by left | by right].
  - apply calculate_Ok. split_and!; [done| |by exists ds2].
    destruct Hcat as [[_ ->]%app_eq_nil|?]; [by left | by right].
  - rewrite (rows_assemble df (target_frame df targets) cols _ ds1 eq_refl Hds1).
    rewrite (rows_assemble df (target_frame df targets) cols _ ds2 eq_refl Hds2).
    rewrite (rows_assemble df (target_frame df targets) cols _ (ds1 ++ ds2) eq_refl
               (Forall2_app Hds1 Hds2)).
    by rewrite fmap_app, join_app, fmap_app.
Qed.

Lemma filter_ext_elem {A} (P Q : A → Prop)
    `{∀ x, Decision (P x)} `{∀ x, Decision (Q x)} (l : list A) :
  (∀ x, x ∈ l → P x ↔ Q x) → filter P l = filter Q l.
Proof.
  induction l as [|x l IH]; intros Hext; [done|].
  rewrite !filter_cons, IH by (intros y Hy; apply Hext; by right).
  destruct (decide (P x)) as [HP|HP], (decide (Q x)) as [HQ|HQ]; try done;
    exfalso; apply (Hext x) in HP || apply (Hext x) in HQ; try done; by left.
Qed.

(** X4. The list of target entities counts as a set, and only through the
    entities that have records: two lists that agree on every identifier
    occurring in the record set give the same outcome, whatever their
    order, repetitions, or names without a record. *)
Theorem targets_as_set df targets targets' refs cols :
  (∀ r p, r ∈ rows df → at_ r COL_JUGADOR = CStr p →
          p ∈ targets ↔ p ∈ targets') →
  calculate_dual_zscore df targets refs cols
  = calculate_dual_zscore df targets' refs cols.
Proof.
  intros Hsame. unfold calculate_dual_zscore, select.
  case_bool_decide; [|done].
  rewrite (filter_ext_elem
             (λ r, cell_isin targets (at_ r COL_JUGADOR))
             (λ r, cell_isin targets' (at_ r COL_JUGADOR))); [done|].
  intros r Hr. unfold cell_isin.
  destruct (at_ r COL_JUGADOR) as [p|x] eqn:Hp; [|done].
  rewrite !bool_decide_spec. by apply (Hsame r).
Qed.

(** X5. The score field of a requested metric, read down the rows of the
    result, is the list of scores of the target rows against each
    processed group in turn: 0 where the group's standard deviation is
    zero or NaN, (raw value - mean) / standard deviation elsewhere. *)
Theorem score_column_closed_form df targets refs cols out col :
  calculate_dual_zscore df targets refs cols = Ok out →
  distinct_names cols →
  col ∈ cols →
  (λ o, o !! zscore_name col) <$> rows out = score_column df targets refs col.
Proof. apply score_cells. Qed.

Lemma zscore_name_longer col : zscore_name col ≠ col.
Proof.
  intros Heq. apply (f_equal String.length) in Heq.
  cbv [zscore_name String.append] in Heq. simpl in Heq. lia.
Qed.

Lemma contract_single df cols col :
  contract df cols → col ∈ cols → contract df [col].
Proof.
  intros [Hjug Hcat _ _ Hsub Hnum] Hcol. constructor; [done | done | done | | |].
  - apply NoDup_singleton.
  - by intros c ->%list_elem_of_singleton; apply Hsub.
  - eapply Forall_impl; [exact Hnum|]. intros r Hr c ->%list_elem_of_singleton.
    by apply Hr.
Qed.

(** X8. Under the input contract the scores of a metric do not depend on
    which other metrics are requested with it: the score field of the
    metric is the same when the metric is requested alone. *)
Theorem metric_independence df targets refs cols col :
  contract df cols →
  distinct_names cols →
  col ∈ cols →
  ∃ out out1,
    calculate_dual_zscore df targets refs cols = Ok out ∧
    calculate_dual_zscore df targets refs [col] = Ok out1 ∧
    (λ o, o !! zscore_name col) <$> rows out
    = (λ o, o !! zscore_name col) <$> rows out1.
Proof.
  intros Hc Hnames Hcol.
  destruct (calculate_total df targets refs cols Hc) as [out Hout].
  destruct (calculate_total df targets refs [col] (contract_single _ _ _ Hc Hcol))
    as [out1 Hout1].
  exists out, out1. split_and!; [done..|].
  rewrite (score_cells _ _ _ _ _ col Hout Hnames Hcol).
  rewrite (score_cells _ _ _ _ _ col Hout1); [done| |by left].
  intros m m' ->%list_elem_of_singleton ->%list_elem_of_singleton Heq.
  by apply (zscore_name_longer col).
Qed.

(** *** Results that agree row by row *)






(** *** The page: the players on offer *)

Lemma existsb_cell_eq p (l : list cell) : existsb (cell_eq p) l ↔ CStr p ∈ l.
Proof.
  induction l as [|v l IH]; simpl.
  - split; [done | by intros ?%elem_of_nil].
  - rewrite orb_True, IH, elem_of_cons. split.
    + intros [Hv|?]; [left | by right].
      destruct v as [s|x]; [|done]. simpl in Hv.
      by apply bool_decide_unpack in Hv as ->.
    + intros [<-|?]; [left | by right]. simpl. by apply bool_decide_pack.
Qed.

Lemma same_cell_text v p : same_cell v (CStr p) ↔ v = CStr p.
Proof.
  destruct v as [s|x]; simpl; [|by split].
  rewrite bool_decide_spec. split; congruence.
Qed.

Lemma unique_text s p : CStr p ∈ unique s ↔ CStr p ∈ s.
Proof.
  induction s as [|v s IH]; simpl; [done|].
  rewrite !elem_of_cons, list_elem_of_filter, IH, same_cell_text.
  split; [naive_solver|]. intros [?|?]; [by left|].
  destruct v as [a|x]; [|by right].
  destruct (decide (a = p)) as [->|?]; [by left | right]. split; [congruence | done].
Qed.

Lemma sorted_elem l l' v : sorted l = Ok l' → v ∈ l' ↔ v ∈ l.
Proof.
  unfold sorted. destruct (_ && _); [done|]. intros [= <-].
  by rewrite merge_sort_Permutation.
Qed.

Lemma target_rows_single data p :
  target_rows data [p] ≠ [] ↔ ∃ r, r ∈ rows data ∧ at_ r COL_JUGADOR = CStr p.
Proof.
  unfold target_rows. split.
  - intros Hne. destruct (filter _ (rows data)) as [|r l] eqn:Hf; [done|].
    assert (r ∈ filter (λ r, cell_isin [p] (at_ r COL_JUGADOR)) (rows data)) as Hr
      by (rewrite Hf; left).
    apply list_elem_of_filter in Hr as [Hin Hr]. exists r. split; [done|].
    unfold cell_isin in Hin. destruct (at_ r COL_JUGADOR) as [s|x]; [|done].
    by apply bool_decide_unpack, list_elem_of_singleton in Hin as ->.
  - intros (r & Hr & Hp) Hnil.
    assert (r ∈ filter (λ r, cell_isin [p] (at_ r COL_JUGADOR)) (rows data)) as Hin.
    { apply list_elem_of_filter. split; [|done]. rewrite Hp. simpl.
      apply bool_decide_pack. by left. }
    rewrite Hnil in Hin. by apply elem_of_nil in Hin.
Qed.

(** X9. The players the sidebar offers are the default names that have at
    least one record, in the order of the default list. *)
Theorem offered_players data players :
  all_players data = Ok players →
  target_players_filtered players
  = filter (λ p, target_rows data [p] ≠ []) JUGADORES_COMPARAR_DEFAULT.
Proof.
  unfold all_players, getitem. case_bool_decide; [|done]. simpl.
  intros Hsorted. unfold target_players_filtered.
  apply list_filter_iff. intros p.
  rewrite existsb_cell_eq, (sorted_elem _ _ _ Hsorted), unique_text.
  rewrite target_rows_single, list_elem_of_fmap. naive_solver.
Qed.

(** *** The page: from the result of the calculator to the charts *)

Lemma main_stages data sp sr sm :
  main data sp sr sm =
  if empty data then Ok Blank
  else
    _ ← all_players data;
    if is_nil sp || is_nil sr || is_nil sm then Ok Info
    else
      out ← calculate_dual_zscore data sp sr COLS_ZSCORE;
      if empty out then Ok Warning
      else
        df_chart ← prepare_chart_data out sm;
        charts ← draw_charts df_chart sm;
        Ok (Visualization charts).
Proof.
  unfold main, prepare_chart_data, draw_charts.
  destruct (empty data); [done|].
  destruct (all_players data); [|done]. simpl.
  destruct (_ || _); [done|].
  destruct (calculate_dual_zscore _ _ _ _) as [out|]; [|done]. simpl.
  destruct (empty out); [done|].
  destruct (melt _ _ _ _ _) as [d1|]; [|done]. simpl.
  by destruct (replace_in_column _ _ _ _) as [d2|].
Qed.

Lemma zip_with_insert_fmap (c : string) (f : gmap string cell → cell)
    (rs : list (gmap string cell)) :
  zip_with (λ r v, <[c:=v]> r) rs (f <$> rs) = (λ r, <[c := f r]> r) <$> rs.
Proof. induction rs as [|r rs IH]; csimpl; [done | by rewrite IH]. Qed.

Lemma lookup_keep ids (r : gmap string cell) c :
  keep ids r !! c = if decide (c ∈ ids) then Some (at_ r c) else None.
Proof.
  unfold keep. induction ids as [|x ids IH]; simpl.
  - rewrite lookup_empty. by destruct (decide (c ∈ [])) as [H%elem_of_nil|].
  - rewrite lookup_insert, IH.
    destruct (decide (x = c)) as [->|Hx], (decide (c ∈ ids)) as [Hc|Hc],
      (decide (c ∈ _ :: ids)) as [Hc'|Hc']; try done; exfalso; set_solver.
Qed.

Lemma melted_row m (o : gmap string cell) :
  (λ r, <[COL_METRICA :=
            match at_ r COL_METRICA with
            | CStr x => CStr (str_replace "Z-Score " "" x)
            | CNum _ => CNum NaN
            end]> r)
    (<[COL_Z_SCORE := at_ o (zscore_name m)]>
       (<[COL_METRICA := CStr (zscore_name m)]> (keep [COL_JUGADOR; COL_REFERENCIA] o)))
  = <[COL_METRICA := CStr (metric_label m)]>
      (<[COL_Z_SCORE := at_ o (zscore_name m)]>
         (<[COL_METRICA := CStr (zscore_name m)]>
            (keep [COL_JUGADOR; COL_REFERENCIA] o))).
Proof.
  simpl. unfold at_ at 1.
  rewrite lookup_insert_ne by done. by rewrite lookup_insert_eq.
Qed.

Lemma renamed_row m (o : gmap string cell) :
  (λ r, match r !! COL_REFERENCIA with
        | Some v => <[COL_REFERENCIA_CHART := v]> (delete COL_REFERENCIA r)
        | None => delete COL_REFERENCIA_CHART r
        end)
    (<[COL_METRICA := CStr (metric_label m)]>
       (<[COL_Z_SCORE := at_ o (zscore_name m)]>
          (<[COL_METRICA := CStr (zscore_name m)]>
             (keep [COL_JUGADOR; COL_REFERENCIA] o))))
  = chart_row m o.
Proof.
  cbv beta. rewrite !lookup_insert_ne by done.
  rewrite lookup_keep, decide_True by (repeat constructor). done.
Qed.

Lemma melt_Ok frame ids vals var val d :
  melt frame ids vals var val = Ok d ↔
  (val ∉ columns frame) ∧
  (∀ c, c ∈ ids ++ vals → c ∈ columns frame) ∧
  d = mkDataFrame (ids ++ [var; val])
        (mjoin ((λ v, (λ r, <[val := at_ r v]> (<[var := CStr v]> (keep ids r)))
                        <$> rows frame) <$> vals)).
Proof.
  unfold melt. case_bool_decide as Hval; [by split; [|intros [? _]]|].
  destruct (filter _ _) as [|c l] eqn:Hf; split.
  - intros [= <-]. split_and!; [done| |done]. intros c Hc.
    destruct (decide (c ∈ columns frame)) as [|Hn]; [done|]. exfalso.
    assert (c ∈ filter (λ c, c ∉ columns frame) (ids ++ vals)) as Hin
      by (by apply list_elem_of_filter).
    rewrite Hf in Hin. by apply elem_of_nil in Hin.
  - by intros (_ & _ & ->).
  - done.
  - intros (_ & Hall & _). exfalso.
    assert (c ∈ filter (λ c, c ∉ columns frame) (ids ++ vals)) as Hc
      by (rewrite Hf; left).
    apply list_elem_of_filter in Hc as [Hn Hc]. by apply Hn, Hall.
Qed.

Lemma fmap_join_blocks {A B C D} (F : C → D) (G : A → B → C)
    (l : list B) (ms : list A) :
  F <$> mjoin ((λ m, G m <$> l) <$> ms)
  = mjoin ((λ m, (λ o, F (G m o)) <$> l) <$> ms).
Proof.
  induction ms as [|m ms IH]; csimpl; [done|].
  by rewrite fmap_app, IH, <-list_fmap_compose.
Qed.

Lemma mjoin_cons {A} (x : list A) (l : list (list A)) :
  mjoin (x :: l) = x ++ mjoin l.
Proof. done. Qed.

Lemma staged_row m (o : gmap string cell) :
  (λ r, match r !! COL_REFERENCIA with
        | Some v => <[COL_REFERENCIA_CHART := v]> (delete COL_REFERENCIA r)
        | None => delete COL_REFERENCIA_CHART r
        end)
    ((λ r, <[COL_METRICA :=
              match at_ r COL_METRICA with
              | CStr x => CStr (str_replace "Z-Score " "" x)
              | CNum _ => CNum NaN
              end]> r)
       (<[COL_Z_SCORE := at_ o (zscore_name m)]>
          (<[COL_METRICA := CStr (zscore_name m)]>
             (keep [COL_JUGADOR; COL_REFERENCIA] o))))
  = chart_row m o.
Proof.
  etrans; [|apply (renamed_row m o)]. cbv beta. by rewrite <-(melted_row m o).
Qed.

Lemma staged_rows (os : list (gmap string cell)) sm :
  (λ r, match r !! COL_REFERENCIA with
        | Some v => <[COL_REFERENCIA_CHART := v]> (delete COL_REFERENCIA r)
        | None => delete COL_REFERENCIA_CHART r
        end)
    <$> ((λ r, <[COL_METRICA :=
                   match at_ r COL_METRICA with
                   | CStr x => CStr (str_replace "Z-Score " "" x)
                   | CNum _ => CNum NaN
                   end]> r)
           <$> mjoin ((λ v, (λ r, <[COL_Z_SCORE := at_ r v]>
                                    (<[COL_METRICA := CStr v]>
                                       (keep [COL_JUGADOR; COL_REFERENCIA] r)))
                              <$> os) <$> (zscore_name <$> sm)))
  = mjoin ((λ m, chart_row m <$> os) <$> sm).
Proof.
  induction sm as [|m sm IH]; [done|].
  rewrite !fmap_cons, !mjoin_cons, !fmap_app, IH.
  f_equal. rewrite <-!list_fmap_compose. apply list_fmap_ext. intros i o _.
  exact (staged_row m o).
Qed.

(** The chart data: for each selected metric in turn, one row per row of
    the calculator's result. *)
Lemma prepare_chart_data_Ok out sm df_chart :
  prepare_chart_data out sm = Ok df_chart ↔
  (COL_Z_SCORE ∉ columns out) ∧
  (∀ c, c ∈ [COL_JUGADOR; COL_REFERENCIA] ++ (zscore_name <$> sm) → c ∈ columns out) ∧
  df_chart = chart_frame out sm.
Proof.
  unfold prepare_chart_data. rewrite bind_Ok. setoid_rewrite melt_Ok.
  assert (∀ d1,
    d1 = mkDataFrame ([COL_JUGADOR; COL_REFERENCIA] ++ [COL_METRICA; COL_Z_SCORE])
           (mjoin ((λ v, (λ r, <[COL_Z_SCORE := at_ r v]>
                                 (<[COL_METRICA := CStr v]>
                                    (keep [COL_JUGADOR; COL_REFERENCIA] r)))
                           <$> rows out) <$> (zscore_name <$> sm))) →
    (d2 ← replace_in_column d1 COL_METRICA "Z-Score " "";
     mret (rename d2 COL_REFERENCIA COL_REFERENCIA_CHART))
    = Ok (chart_frame out sm)) as Hstages.
  { intros d1 ->. unfold replace_in_column, getitem. cbn [columns rows].
    rewrite bool_decide_true by by_computation. rewrite !bind_ok.
    unfold setitem, rename. cbn [columns rows].
    rewrite bool_decide_true by by_computation.
    unfold chart_frame. do 2 f_equal.
    rewrite <-(list_fmap_compose (λ r, at_ r COL_METRICA)).
    rewrite (zip_with_insert_fmap COL_METRICA
               (λ r, match at_ r COL_METRICA with
                     | CStr x => CStr (str_replace "Z-Score " "" x)
                     | CNum _ => CNum NaN
                     end)).
    apply staged_rows. }
  split.
  - intros (d1 & (Hz & Hall & Hd1) & Hd2). rewrite (Hstages d1 Hd1) in Hd2.
    by injection Hd2 as <-.
  - intros (Hz & Hall & ->). eexists. split; [by split_and!|]. by apply Hstages.
Qed.
End properties.

(** ** Properties that hold in exact arithmetic *)

Section exact_arithmetic.
#[local] Existing Instance exact | 0.

(** *** Mean and standard deviation of real numbers *)








(** *** Scaling a metric *)

























End exact_arithmetic.

(** ** The properties on the sample record sets *)

(** C1 on the cohort: reference mean 50, standard deviation 10 and raw
    value 65 give the score 1.5, in binary64 as in exact arithmetic. *)
Lemma zscore_formula_witness :
  ∃ out o,
    calculate_dual_zscore cohort ["X"] ["REF"] [COL_VO2_MAX] = Ok out ∧
    rows out = [o] ∧
    o !! zscore_name COL_VO2_MAX = Some (CNum 1.5%float).
Proof.
  eexists.
  assert (calculate_dual_zscore cohort ["X"] ["REF"] [COL_VO2_MAX] = Ok _) as Hout
    by (vm_compute; reflexivity).
  destruct (zscore_formula _ _ _ _ _ Hout) as (blocks & Hrows & HF); [solve_names|].
  assert (processed cohort ["REF"] = ["REF"]) as Hp by (vm_compute; reflexivity).
  assert (target_rows cohort ["X"] = [record "X" "TARGET" [(COL_VO2_MAX, 65%float)]])
    as Ht by (vm_compute; reflexivity).
  rewrite Hp, Ht in HF.
  inversion HF as [|g b gs bs Hb Hbs]; subst. inversion Hbs; subst.
  inversion Hb as [|r o rs os Ho Hos]; subst. inversion Hos; subst.
  exists o. split; [exact Hout|]. split; [by rewrite Hrows|].
  rewrite (Ho COL_VO2_MAX [40; 50; 60]%float 65%float).
  - vm_compute. reflexivity.
  - by left.
  - vm_compute. reflexivity.
  - repeat constructor.
  - simpl. lia.
  - vm_compute. reflexivity.
  - vm_compute. reflexivity.
Defined.



(** C3 on the sample roster: neither requested group has records. *)
Lemma skip_on_empty_reference_witness :
  calculate_dual_zscore roster ["CALAGUA"] ["SUB 15"; "SUB 20"] COLS_ZSCORE
  = Ok empty_frame.
Proof.
  apply (skip_on_empty_reference roster ["CALAGUA"] ["SUB 15"; "SUB 20"] COLS_ZSCORE).
  - by_computation.
  - by_computation.
  - intros g Hg.
    repeat (apply elem_of_cons in Hg as [->|Hg]; [vm_compute; reflexivity|]).
    by apply elem_of_nil in Hg.
Defined.

(** C4 on the sample roster: without reference groups the result is the
    empty frame, without metrics the populated group "SUB 17" makes the
    calculator raise, and the page answers an empty selection with its
    notice. *)
Lemma empty_selections_witness :
  calculate_dual_zscore roster ["CALAGUA"] [] COLS_ZSCORE = Ok empty_frame ∧
  calculate_dual_zscore roster ["CALAGUA"] ["SUB 15"; "SUB 17"] []
  = Raise ValueError ∧
  main roster ["CALAGUA"] [] COLS_ZSCORE = Ok Info.
Proof.
  destruct (empty_selections roster ["CALAGUA"] ["SUB 15"; "SUB 17"] COLS_ZSCORE)
    as (Hrefs & _ & Hmetrics & Hpage); [by_computation|].
  split; [exact Hrefs|]. split.
  - rewrite Hmetrics by by_computation. vm_compute. reflexivity.
  - eapply Hpage; [reflexivity | vm_compute; reflexivity | by right; left].
Defined.

(** C4 fails for an empty list of metrics: aggregating the empty column
    selection of a populated reference group raises. *)
Lemma empty_metrics_raise :
  calculate_dual_zscore roster ["CALAGUA"] ["1 EQUIPO"; "SUB 17"] []
  = Raise ValueError.
Proof. vm_compute. reflexivity. Qed.

(** Without target entities the statistics of a populated reference group
    are computed all the same: text under a metric of that group raises. *)
Example empty_targets_still_aggregate :
  calculate_dual_zscore roster_text [] ["1 EQUIPO"] COLS_ZSCORE = Raise TypeError.
Proof. vm_compute. reflexivity. Qed.

(** C5 on the sample roster. *)
Lemma output_columns_witness :
  ∃ out,
    calculate_dual_zscore roster ["CALAGUA"] ["1 EQUIPO"; "SUB 17"] COLS_ZSCORE
    = Ok out ∧
    ∀ c, c ∈ columns out ↔
         (c ∉ COLS_ZSCORE) ∧
         (c ∈ columns roster ∨ c = COL_REFERENCIA ∨
          ∃ m, m ∈ COLS_ZSCORE ∧ c = zscore_name m).
Proof.
  eexists.
  assert (calculate_dual_zscore roster ["CALAGUA"] ["1 EQUIPO"; "SUB 17"]
            COLS_ZSCORE = Ok _) as Hout by (vm_compute; reflexivity).
  split; [exact Hout|].
  apply (output_columns _ _ _ _ _ Hout). vm_compute. discriminate.
Defined.

(** C5 fails as stated: on a roster in the shape the application loads,
    with both configured metrics requested, every output row still carries
    the entity's own group label, which is neither the entity identifier,
    nor the reference group label, nor a score field. *)
Lemma own_category_remains :
  ∃ out,
    calculate_dual_zscore roster ["CALAGUA"] ["1 EQUIPO"; "SUB 17"] COLS_ZSCORE
    = Ok out ∧
    rows out ≠ [] ∧
    columns out = [COL_JUGADOR; COL_CATEGORIA; zscore_name COL_RM_SENTADILLA;
                   zscore_name COL_VO2_MAX; COL_REFERENCIA] ∧
    Forall (λ o, o !! COL_CATEGORIA = Some (CStr "SUB 17")) (rows out).
Proof.
  eexists. split; [vm_compute; reflexivity|].
  split; [vm_compute; discriminate|].
  split; [vm_compute; reflexivity|].
  vm_compute. repeat constructor.
Qed.

(** C6 on the roster with a third group, one of whose records is a
    target: without the records of "RESERVA" the row of DIAZ tagged
    "1 EQUIPO" is gone and the row of CALAGUA tagged "1 EQUIPO" is as it
    was. *)
Lemma group_independence_witness :
  ∃ out out',
    calculate_dual_zscore roster_reserve ["CALAGUA"; "DIAZ"] ["1 EQUIPO"; "RESERVA"]
      COLS_ZSCORE = Ok out ∧
    calculate_dual_zscore (remove_group roster_reserve "RESERVA") ["CALAGUA"; "DIAZ"]
      ["1 EQUIPO"; "RESERVA"] COLS_ZSCORE = Ok out' ∧
    filter (tagged "1 EQUIPO") (rows out')
    = filter (λ o, ¬ cell_eq "RESERVA" (at_ o COL_CATEGORIA))
             (filter (tagged "1 EQUIPO") (rows out)).
Proof.
  eexists.
  assert (calculate_dual_zscore roster_reserve ["CALAGUA"; "DIAZ"]
            ["1 EQUIPO"; "RESERVA"] COLS_ZSCORE = Ok _) as Hout
    by (vm_compute; reflexivity).
  destruct (group_independence _ _ _ _ _ "1 EQUIPO" "RESERVA"
              ltac:(discriminate) Hout) as (out' & Hout' & Hrows).
  exists out'. split; [exact Hout|]. split; [exact Hout' | exact Hrows].
Defined.

(** C6 fails as stated when a target belongs to the removed group: on the
    sample roster the target is a record of "SUB 17", so removing that
    group removes the target and with it the row tagged "1 EQUIPO". *)
Lemma removing_own_group_loses_rows :
  ∃ out out',
    calculate_dual_zscore roster ["CALAGUA"] ["1 EQUIPO"; "SUB 17"] COLS_ZSCORE
    = Ok out ∧
    calculate_dual_zscore (remove_group roster "SUB 17") ["CALAGUA"]
      ["1 EQUIPO"; "SUB 17"] COLS_ZSCORE = Ok out' ∧
    length (filter (tagged "1 EQUIPO") (rows out)) = 1 ∧
    filter (tagged "1 EQUIPO") (rows out') = [].
Proof.
  do 2 eexists. split; [vm_compute; reflexivity|].
  split; [vm_compute; reflexivity|].
  split; vm_compute; reflexivity.
Qed.



(** C8 on the sample roster. *)
Lemma result_order_witness :
  ∃ out blocks,
    calculate_dual_zscore roster ["CALAGUA"] ["1 EQUIPO"; "SUB 17"] COLS_ZSCORE
    = Ok out ∧
    rows out = mjoin blocks ∧
    Forall2 (λ g block,
               Forall2 (λ r o, tagged g o ∧
                               ∀ c, untouched COLS_ZSCORE c → o !! c = r !! c)
                       (target_rows roster ["CALAGUA"]) block)
            (processed roster ["1 EQUIPO"; "SUB 17"]) blocks.
Proof.
  eexists.
  assert (calculate_dual_zscore roster ["CALAGUA"] ["1 EQUIPO"; "SUB 17"]
            COLS_ZSCORE = Ok _) as Hout by (vm_compute; reflexivity).
  destruct (result_order _ _ _ _ _ Hout) as (blocks & Hb).
  - intros Hin. apply (bool_decide_pack _) in Hin. vm_compute in Hin. exact Hin.
  - exists blocks. split; [exact Hout | exact Hb].
Defined.

(** C9 on a roster in which the target entity has two records, scored
    against its own group: two rows, each with the score of its own raw
    values. *)
Lemma one_row_per_input_row_witness :
  ∃ out blocks,
    calculate_dual_zscore roster_repeated ["CALAGUA"] ["SUB 17"] COLS_ZSCORE
    = Ok out ∧
    rows out = mjoin blocks ∧
    Forall2 (λ g block,
               Forall2 (λ r o,
                          tagged g o ∧
                          o !! COL_JUGADOR = r !! COL_JUGADOR ∧
                          ∀ col, col ∈ COLS_ZSCORE →
                                 o !! zscore_name col
                                 = Some (expected_score roster_repeated g col r))
                       (target_rows roster_repeated ["CALAGUA"]) block ∧
               length block = length (target_rows roster_repeated ["CALAGUA"]) ∧
               ∀ e, e ∈ ["CALAGUA"] →
                    length (filter (of_entity e) block)
                    = length (filter (of_entity e) (rows roster_repeated)))
            (processed roster_repeated ["SUB 17"]) blocks.
Proof.
  eexists.
  assert (calculate_dual_zscore roster_repeated ["CALAGUA"] ["SUB 17"]
            COLS_ZSCORE = Ok _) as Hout by (vm_compute; reflexivity).
  destruct (one_row_per_input_row _ _ _ _ _ Hout) as (blocks & Hb).
  - intros Hin. apply (bool_decide_pack _) in Hin. vm_compute in Hin. exact Hin.
  - intros Hin. apply (bool_decide_pack _) in Hin. vm_compute in Hin. exact Hin.
  - solve_names.
  - exists blocks. split; [exact Hout | exact Hb].
Defined.

(** C10 on the roster in which the target has two records in its own
    group: each is part of the population of that group, and each is
    scored against the mean and standard deviation of both. *)
Lemma targets_in_reference_witness :
  ∃ out o1 o2,
    calculate_dual_zscore roster_repeated ["CALAGUA"] ["SUB 17"] [COL_VO2_MAX]
    = Ok out ∧
    target_rows roster_repeated ["CALAGUA"] = reference_rows roster_repeated "SUB 17" ∧
    "SUB 17" ∈ processed roster_repeated ["SUB 17"] ∧
    rows out = [o1; o2] ∧
    o1 !! zscore_name COL_VO2_MAX
    = Some (CNum (zscore (nanmean [50; 52]%float) (nanstd [50; 52]%float) 50%float)) ∧
    o2 !! zscore_name COL_VO2_MAX
    = Some (CNum (zscore (nanmean [50; 52]%float) (nanstd [50; 52]%float) 52%float)).
Proof.
  eexists.
  assert (calculate_dual_zscore roster_repeated ["CALAGUA"] ["SUB 17"] [COL_VO2_MAX]
          = Ok _) as Hout by (vm_compute; reflexivity).
  destruct (targets_in_reference _ _ _ _ _ Hout) as [Hmember (blocks & Hrows & HF)];
    [solve_names|].
  assert (processed roster_repeated ["SUB 17"] = ["SUB 17"]) as Hp
    by (vm_compute; reflexivity).
  assert (target_rows roster_repeated ["CALAGUA"]
          = [record "CALAGUA" "SUB 17" [(COL_RM_SENTADILLA, 100); (COL_VO2_MAX, 50)];
             record "CALAGUA" "SUB 17" [(COL_RM_SENTADILLA, 105); (COL_VO2_MAX, 52)]]%float)
    as Ht by (vm_compute; reflexivity).
  rewrite Hp, Ht in HF.
  inversion HF as [|g b gs bs Hb Hbs]; subst. inversion Hbs; subst.
  inversion Hb as [|r1 o1 rs os Ho1 Hos]; subst.
  inversion Hos as [|r2 o2 rs' os' Ho2 Hos']; subst. inversion Hos'; subst.
  exists o1, o2. split; [exact Hout|].
  split; [vm_compute; reflexivity|].
  split.
  { refine (proj2 (Hmember "SUB 17"
              (record "CALAGUA" "SUB 17"
                 [(COL_RM_SENTADILLA, 100); (COL_VO2_MAX, 50)]%float) _ _ _));
      [by left | rewrite Ht; by left | vm_compute; exact I]. }
  split; [by rewrite Hrows|].
  destruct (Ho1 I COL_VO2_MAX 50%float ltac:(by left) eq_refl) as (xs1 & Hxs1 & _ & ->).
  destruct (Ho2 I COL_VO2_MAX 52%float ltac:(by left) eq_refl) as (xs2 & Hxs2 & _ & ->).
  vm_compute in Hxs1. injection Hxs1 as <-.
  vm_compute in Hxs2. injection Hxs2 as <-.
  by split.
Defined.

(** X1 on the frame without columns. *)
Lemma missing_key_column_witness :
  calculate_dual_zscore empty_frame ["CALAGUA"] ["SUB 17"] COLS_ZSCORE
  = Raise (KeyError COL_JUGADOR).
Proof.
  apply (missing_key_column (arith := binary64) empty_frame
           ["CALAGUA"] ["SUB 17"] COLS_ZSCORE).
  apply not_elem_of_nil.
Defined.

(** X2 on the sample roster: asked for one metric it has and two it does
    not have, one of them twice, and asked for none it has. *)
Lemma missing_metric_column_witness :
  calculate_dual_zscore roster ["CALAGUA"] ["SUB 15"; "SUB 17"]
    [COL_VO2_MAX; "SALTO"; "SPRINT"; "SALTO"]
  = Raise (KeyErrorMissing ["SALTO"; "SPRINT"]) ∧
  calculate_dual_zscore roster ["CALAGUA"] ["SUB 15"; "SUB 17"] ["SALTO"; "SPRINT"]
  = Raise (KeyErrorNone ["SALTO"; "SPRINT"]).
Proof.
  split.
  - rewrite (missing_metric_column roster ["CALAGUA"] ["SUB 15"; "SUB 17"]
               [COL_VO2_MAX; "SALTO"; "SPRINT"; "SALTO"]).
    + vm_compute. reflexivity.
    + by_computation.
    + by_computation.
    + vm_compute. discriminate.
    + intros Hall. specialize (Hall "SALTO" ltac:(by right; left)).
      apply (bool_decide_pack _) in Hall. vm_compute in Hall. exact Hall.
  - rewrite (missing_metric_column roster ["CALAGUA"] ["SUB 15"; "SUB 17"]
               ["SALTO"; "SPRINT"]).
    + vm_compute. reflexivity.
    + by_computation.
    + by_computation.
    + vm_compute. discriminate.
    + intros Hall. specialize (Hall "SALTO" ltac:(by left)).
      apply (bool_decide_pack _) in Hall. vm_compute in Hall. exact Hall.
Defined.

(** X3 on the sample roster. *)
Lemma reference_lists_concatenate_witness :
  ∃ out out1 out2,
    calculate_dual_zscore roster ["CALAGUA"] (["1 EQUIPO"] ++ ["SUB 17"]) COLS_ZSCORE
    = Ok out ∧
    calculate_dual_zscore roster ["CALAGUA"] ["1 EQUIPO"] COLS_ZSCORE = Ok out1 ∧
    calculate_dual_zscore roster ["CALAGUA"] ["SUB 17"] COLS_ZSCORE = Ok out2 ∧
    rows out = rows out1 ++ rows out2.
Proof.
  eexists.
  assert (calculate_dual_zscore roster ["CALAGUA"] (["1 EQUIPO"] ++ ["SUB 17"])
            COLS_ZSCORE = Ok _) as Hout by (vm_compute; reflexivity).
  destruct (reference_lists_concatenate _ _ _ _ _ _ Hout) as (out1 & out2 & Hrows).
  exists out1, out2. split; [exact Hout | exact Hrows].
Defined.

(** X4 on the sample roster: a name without a record and a repetition
    change nothing. *)
Lemma targets_as_set_witness :
  calculate_dual_zscore roster ["OJEDA"; "CALAGUA"; "CALAGUA"] ["1 EQUIPO"] COLS_ZSCORE
  = calculate_dual_zscore roster ["CALAGUA"] ["1 EQUIPO"] COLS_ZSCORE.
Proof.
  apply (targets_as_set roster ["OJEDA"; "CALAGUA"; "CALAGUA"] ["CALAGUA"]).
  intros r p Hr Hp. elem_cases Hr; vm_compute in Hp; injection Hp as <-.
  - split; intros _; repeat constructor.
  - split; intros Hin; exfalso;
      repeat (apply elem_of_cons in Hin as [Hin|Hin]; [discriminate|]);
      by apply elem_of_nil in Hin.
Defined.

(** X5 on the cohort. *)
Lemma score_column_closed_form_witness :
  ∃ out,
    calculate_dual_zscore cohort ["X"] ["REF"] [COL_VO2_MAX] = Ok out ∧
    (λ o, o !! zscore_name COL_VO2_MAX) <$> rows out
    = score_column cohort ["X"] ["REF"] COL_VO2_MAX.
Proof.
  destruct (calculate_total cohort ["X"] ["REF"] [COL_VO2_MAX]) as [out Hout];
    [solve_contract|].
  exists out. split; [exact Hout|].
  apply (score_column_closed_form cohort ["X"] ["REF"] [COL_VO2_MAX] out);
    [exact Hout | solve_names | by left].
Defined.

(** X8 on the sample roster. *)
Lemma metric_independence_witness :
  ∃ out out1,
    calculate_dual_zscore roster ["CALAGUA"] ["1 EQUIPO"; "SUB 17"] COLS_ZSCORE
    = Ok out ∧
    calculate_dual_zscore roster ["CALAGUA"] ["1 EQUIPO"; "SUB 17"] [COL_VO2_MAX]
    = Ok out1 ∧
    (λ o, o !! zscore_name COL_VO2_MAX) <$> rows out
    = (λ o, o !! zscore_name COL_VO2_MAX) <$> rows out1.
Proof.
  apply (metric_independence roster ["CALAGUA"] ["1 EQUIPO"; "SUB 17"]
           COLS_ZSCORE COL_VO2_MAX).
  - solve_contract.
  - solve_names.
  - repeat constructor.
Defined.

(** X9 on the roster in which CALAGUA has two records and the other
    default names none. *)
Lemma offered_players_witness :
  target_players_filtered [CStr "CALAGUA"; CStr "PEREZ"]
  = filter (λ p, target_rows roster_repeated [p] ≠ []) JUGADORES_COMPARAR_DEFAULT.
Proof.
  apply (offered_players roster_repeated [CStr "CALAGUA"; CStr "PEREZ"]).
  vm_compute. reflexivity.
Defined.
